(** * Patch-header parser and validator ([validate_patch.py])

    A shallow embedding of [.github/scripts/validate_patch.py]:
    [parse_header], [validate_patch_file] and [main], with the string and
    regular-expression primitives they call, followed by the properties of
    the specification that are settled on it.

    Text model.  A Python [str] is a sequence of code points; here it is a
    [string], whose characters ([ascii]) stand for the code points U+0000 to
    U+00FF.  The character classes below are the ones Python uses on that
    range. *)

From Stdlib Require Import NArith Ascii.
From Stdlib Require String.
From stdpp Require Import base option list gmap strings.

(** ** Characters *)

Module Char.

Definition code (c : ascii) : N := N_of_ascii c.

Definition between (lo hi : N) (c : ascii) : bool :=
  ((lo <=? code c) && (code c <=? hi))%N.

(** [A-Z] and [a-z] of the patterns. *)
Definition is_upper (c : ascii) : bool := between 65 90 c.
Definition is_lower (c : ascii) : bool := between 97 122 c.

(** The class [[A-Za-z]]. *)
Definition is_letter (c : ascii) : bool := is_upper c || is_lower c.

(** The class [\d] of a [str] pattern: the decimal digits; below U+0100
    these are [0-9]. *)
Definition is_digit (c : ascii) : bool := between 48 57 c.

(** The class [[A-Za-z0-9]]. *)
Definition is_alnum (c : ascii) : bool := is_letter c || is_digit c.

(** [str.isspace], which is also the class [\s] of a [str] pattern and the
    set removed by [str.strip()]: below U+0100 these are TAB, LF, VT, FF,
    CR, U+001C to U+001F, SPACE, U+0085 and U+00A0. *)
Definition is_space (c : ascii) : bool :=
  between 9 13 c || between 28 31 c
  || (code c =? 32)%N || (code c =? 133)%N || (code c =? 160)%N.

(** One character of [str.lower()]: [A-Z], and below U+0100 also U+00C0 to
    U+00DE without U+00D7, move up by 32. *)
Definition lower (c : ascii) : ascii :=
  if is_upper c || (between 192 222 c && negb (code c =? 215)%N)
  then ascii_of_N (code c + 32) else c.

Definition NL : ascii := "010"%char.
Definition CR : ascii := "013"%char.

End Char.

(** ** Strings: the [str] methods the script calls *)

Module Str.

Definition is_empty (s : string) : bool :=
  match s with EmptyString => true | String _ _ => false end.

(** [s.lstrip()] *)
Fixpoint lstrip (s : string) : string :=
  match s with
  | EmptyString => EmptyString
  | String c s' => if Char.is_space c then lstrip s' else s
  end.

(** Removal of the trailing characters that satisfy [p]. *)
Fixpoint rstrip_by (p : ascii -> bool) (s : string) : string :=
  match s with
  | EmptyString => EmptyString
  | String c s' =>
      let r := rstrip_by p s' in
      if is_empty r && p c then EmptyString else String c r
  end.

(** [s.rstrip()] *)
Definition rstrip (s : string) : string := rstrip_by Char.is_space s.

(** [s.rstrip("\n")] *)
Definition rstrip_nl (s : string) : string :=
  rstrip_by (fun c => Ascii.eqb c Char.NL) s.

(** [s.strip()] *)
Definition strip (s : string) : string := rstrip (lstrip s).

(** [s.lower()] *)
Fixpoint lower (s : string) : string :=
  match s with
  | EmptyString => EmptyString
  | String c s' => String (Char.lower c) (lower s')
  end.

(** [sep.join(l)] *)
Fixpoint join (sep : string) (l : list string) : string :=
  match l with
  | [] => EmptyString
  | [s] => s
  | s :: l' => s +:+ sep +:+ join sep l'
  end.

(** [len(s)] *)
Definition len (s : string) : nat := String.length s.

(** [s.startswith(p)] *)
Definition startswith (p s : string) : bool := String.prefix p s.

(** The longest prefix of [s] whose characters satisfy [p], and the rest. *)
Fixpoint span (p : ascii -> bool) (s : string) : string * string :=
  match s with
  | EmptyString => (EmptyString, EmptyString)
  | String c s' =>
      if p c then let '(a, b) := span p s' in (String c a, b)
      else (EmptyString, s)
  end.

(** [c in s] for a character [c]. *)
Fixpoint mem (c : ascii) (s : string) : bool :=
  match s with
  | EmptyString => false
  | String d s' => Ascii.eqb c d || mem c s'
  end.

(** [all(p(c) for c in s)] *)
Fixpoint all (p : ascii -> bool) (s : string) : bool :=
  match s with
  | EmptyString => true
  | String c s' => p c && all p s'
  end.

Definition NL : string := String Char.NL EmptyString.

End Str.

(** ** The three patterns *)

Module Re.

(** [re.match(r'^(diff |\+\+\+ |--- |@@ )', s)] as a truth value: [s]
    starts with one of the four markers. *)
Definition diff_start (s : string) : bool :=
  Str.startswith "diff " s || Str.startswith "+++ " s
  || Str.startswith "--- " s || Str.startswith "@@ " s.

(** [re.match] of the header pattern on [line], giving groups 1 and 2.
    The pattern is, from [^] to [$]: group 1 [[A-Za-z]+], a colon, [\s*],
    and group 2, which is [.*].

    Group 1 is the longest run of letters at the start, since the colon
    that must follow it is not a letter.  [\s*] is greedy and takes the
    whole run of white space after the colon: [.] matches everything but a
    line feed and [$] holds at the end of the text (or before a line feed
    that ends it), so giving white space back never turns a failure into a
    success.  Group 2 is what follows; it reaches the end, or the line feed
    that ends the text. *)
Definition header (line : string) : option (string * string) :=
  let '(key, after_key) := Str.span Char.is_letter line in
  if Str.is_empty key then None
  else
    match after_key with
    | String ":"%char rest =>
        let '(_, tail) := Str.span Char.is_space rest in
        let '(value, after_value) :=
          Str.span (fun c => negb (Ascii.eqb c Char.NL)) tail in
        if Str.is_empty after_value || String.eqb after_value Str.NL
        then Some (key, value)
        else None
    | _ => None
    end.

(** The pattern [JIRA_RE], [([A-Za-z][A-Za-z0-9]+-\d+)], matched at the
    start of [s]: a letter, a run of letters and digits that is not empty
    and ends at a hyphen (a hyphen is not in the class, so the run is the
    longest one), and a digit after the hyphen. *)
Definition jira_here (s : string) : bool :=
  match s with
  | String c s' =>
      Char.is_letter c &&
      (let '(run, after_run) := Str.span Char.is_alnum s' in
       negb (Str.is_empty run) &&
       match after_run with
       | String "-"%char (String d _) => Char.is_digit d
       | _ => false
       end)
  | EmptyString => false
  end.

(** [JIRA_RE.search(s)] as a truth value: the pattern matches at some
    position of [s]. *)
Fixpoint jira_search (s : string) : bool :=
  jira_here s ||
  match s with
  | EmptyString => false
  | String _ s' => jira_search s'
  end.

End Re.

(** The texts the header pattern matches: a name of one or more letters, a
    colon, white space, and a value without line feed that reaches the end
    of the text or the line feed that ends it. *)
Definition header_shape (line key ws value : string) : Prop :=
  key ≠ "" ∧ Str.all Char.is_letter key = true
  ∧ Str.all Char.is_space ws = true
  ∧ Str.all (fun c => negb (Ascii.eqb c Char.NL)) value = true
  ∧ (line = key +:+ ":" +:+ ws +:+ value
     ∨ line = key +:+ ":" +:+ ws +:+ value +:+ Str.NL).

(** ** [parse_header] *)

(** The variables of the [while] loop of [parse_header]. *)
Record state := State {
  fields : gmap string string;
  desc_lines : list string;
  i : nat
}.

(** How one run of the loop body ends: in [break], or at the end of the body
    or a [continue]. *)
Inductive flow :=
| Break (st : state)
| Continue (st : state).

(** The inner [while j < len(lines)] loop of the [Description] branch, over
    the lines from [j] on: it stops at a diff line or a blank line, and
    appends the others to [desc_lines]. *)
Fixpoint collect (from_j : list string) (desc : list string) (j : nat)
  : list string * nat :=
  match from_j with
  | [] => (desc, j)
  | ln :: rest =>
      if Re.diff_start ln || Str.is_empty (Str.strip ln) then (desc, j)
      else collect rest (desc ++ [Str.rstrip_nl ln]) (S j)
  end.

(** The value stored for [Description] from what [desc_lines] holds: the
    lines, each trimmed, joined by LF, and the whole trimmed. *)
Definition description_value (desc : list string) : string :=
  Str.strip (Str.join Str.NL (Str.strip <$> desc)).

(** One run of the body of [while i < len(lines)], entered with
    [i < len(lines)]: [raw] is [lines[i]]. *)
Definition body (lines : list string) (st : state) (raw : string) : flow :=
  let line := Str.rstrip_nl raw in
  if Str.is_empty (Str.strip line) then
    let i1 := S (i st) in
    match lines !! i1 with
    | Some next =>
        if Re.diff_start next
        then Break (State (fields st) (desc_lines st) i1)
        else Continue (State (fields st) (desc_lines st) i1)
    | None => Continue (State (fields st) (desc_lines st) i1)
    end
  else
    match Re.header line with
    | Some (key, value) =>
        let key := Str.strip key in
        if String.eqb key "Description" then
          let desc :=
            if Str.is_empty value then desc_lines st
            else desc_lines st ++ [value] in
          let '(desc', j) := collect (drop (S (i st)) lines) desc (S (i st)) in
          Continue
            (State (<["Description" := description_value desc']> (fields st))
               desc' j)
        else
          Continue
            (State (<[key := Str.strip value]> (fields st))
               (desc_lines st) (S (i st)))
    | None =>
        if Re.diff_start line then Break st
        else Continue (State (fields st) (desc_lines st) (S (i st)))
    end.

(** The loop, with a bound on the number of runs of its body; [None] when
    the bound is reached. *)
Fixpoint while_loop (fuel : nat) (lines : list string) (st : state)
  : option state :=
  match fuel with
  | 0 => None
  | S fuel' =>
      match lines !! i st with
      | None => Some st
      | Some raw =>
          match body lines st raw with
          | Break st' => Some st'
          | Continue st' => while_loop fuel' lines st'
          end
      end
  end.

Definition init : state := State ∅ [] 0.

(** The state in which the loop of [parse_header lines] ends.  Every run of
    the body moves [i] forward, so [S (length lines)] runs are enough
    ([parse_header_loop_ends]). *)
Definition parse_header_loop (lines : list string) : option state :=
  while_loop (S (length lines)) lines init.

(** [parse_header(lines)]: the pair [(fields, remaining)]. *)
Definition parse_header (lines : list string)
  : gmap string string * list string :=
  match parse_header_loop lines with
  | Some st => (fields st, drop (i st) lines)
  | None => (∅, [])
  end.

(** The index at which the loop ends, [len(lines) - len(remaining)]. *)
Definition cursor (lines : list string) : nat :=
  match parse_header_loop lines with
  | Some st => i st
  | None => 0
  end.

(** The states the loop goes through: [steps lines st st'] when runs of the
    body, none of which ends in [break], lead from [st] to [st']. *)
Inductive steps (lines : list string) : state -> state -> Prop :=
| steps_refl st : steps lines st st
| steps_body st raw st' st'' :
    lines !! i st = Some raw ->
    body lines st raw = Continue st' ->
    steps lines st' st'' ->
    steps lines st st''.

(** The value after the colon when [raw] is a header line whose field name
    is [Description], the line on which the body takes that branch. *)
Definition description_line (raw : string) : option string :=
  let line := Str.rstrip_nl raw in
  if Str.is_empty (Str.strip line) then None
  else
    match Re.header line with
    | Some (key, value) =>
        if String.eqb (Str.strip key) "Description" then Some value else None
    | None => None
    end.

(** What a [Description] line met in state [st] adds to [desc_lines]: its
    value when it has one, and the lines that continue it. *)
Definition collected (lines : list string) (st : state) (value : string)
  : list string :=
  (collect (drop (S (i st)) lines)
     (if Str.is_empty value then [] else [value]) (S (i st))).1.

(** ** [validate_patch_file] *)

Definition REQUIRED_KEYS : list string :=
  ["JIRA"; "Upstream"; "Title"; "Author"; "Date"; "Description"].

Module Msg.

Definition empty_file : string := "Empty file".

Definition missing (key : string) : string :=
  "Missing or empty required header field: " +:+ key.

Definition jira (value : string) : string :=
  "JIRA field does not contain a valid ticket key: '" +:+ value +:+ "'".

(** The text an f-string gives for [fields.get('Upstream')]: the value, or
    [None]. *)
Definition format_get (v : option string) : string :=
  match v with Some s => s | None => "None" end.

Definition upstream (v : option string) : string :=
  "Upstream field must be 'yes' or 'no', got: '" +:+ format_get v +:+ "'".

Definition description : string :=
  "Description must be at least 20 characters and explain the rationale and upstream status.".

End Msg.

(** [key not in fields or not fields[key].strip()] *)
Definition missing_or_empty (flds : gmap string string) (key : string)
  : bool :=
  match flds !! key with
  | None => true
  | Some v => Str.is_empty (Str.strip v)
  end.

(** The [for key in REQUIRED_KEYS] loop. *)
Definition check_required (flds : gmap string string) : list string :=
  Msg.missing <$> filter (fun key => missing_or_empty flds key = true)
                    REQUIRED_KEYS.

Definition check_jira (flds : gmap string string) : list string :=
  let jira := default "" (flds !! "JIRA") in
  if Str.is_empty jira then []
  else if Re.jira_search jira then [] else [Msg.jira jira].

Definition check_upstream (flds : gmap string string) : list string :=
  let upstream := Str.lower (default "" (flds !! "Upstream")) in
  if String.eqb upstream "yes" || String.eqb upstream "no" then []
  else [Msg.upstream (flds !! "Upstream")].

Definition check_description (flds : gmap string string) : list string :=
  let desc := default "" (flds !! "Description") in
  if Str.len (Str.strip desc) <? 20 then [Msg.description] else [].

(** The part of [validate_patch_file] after [f.readlines()]. *)
Definition validate_lines (lines : list string) : list string :=
  match lines with
  | [] => [Msg.empty_file]
  | _ :: _ =>
      let flds := (parse_header lines).1 in
      check_required flds ++ check_jira flds ++ check_upstream flds
        ++ check_description flds
  end.

(** ** Reading a file *)

(** The translation of line ends that a file opened in text mode with the
    default [newline=None] applies: CR LF and a lone CR become LF. *)
Fixpoint universal_newlines (s : string) : string :=
  match s with
  | EmptyString => EmptyString
  | String c s' =>
      if Ascii.eqb c Char.CR then
        match s' with
        | String d s'' =>
            if Ascii.eqb d Char.NL then String Char.NL (universal_newlines s'')
            else String Char.NL (universal_newlines s')
        | EmptyString => String Char.NL EmptyString
        end
      else String c (universal_newlines s')
  end.

(** The lines of a text, each with the LF that ends it; the last one may
    have none. *)
Fixpoint split_lines (s : string) : list string :=
  match s with
  | EmptyString => []
  | String c s' =>
      if Ascii.eqb c Char.NL then String c EmptyString :: split_lines s'
      else
        match split_lines s' with
        | [] => [String c EmptyString]
        | l :: ls => String c l :: ls
        end
  end.

(** [f.readlines()] on a file whose decoded content is [text]. *)
Definition readlines (text : string) : list string :=
  split_lines (universal_newlines text).

(** What a run sees of the outside: the files and the [patches] directory.
    [path.open('r', encoding='utf-8', errors='replace')] raises [OSError]
    for a path that cannot be opened: [file_text] is [None] there.  With
    [errors='replace'] every byte sequence decodes (a malformed one to
    U+FFFD), so a file that opens has a text, which [file_text] gives. *)
Record world := World {
  file_text : string -> option string;
  patches_exists : bool;
  glob_patch : list string;
  glob_diff : list string
}.

Inductive exn :=
| OSError (path : string).

(** The result of a call: a returned value, or an exception that leaves it. *)
Inductive result (A : Type) :=
| Returned (a : A)
| Raised (e : exn).
Arguments Returned {A} a.
Arguments Raised {A} e.

(** [validate_patch_file(path)].  There is no [try] in the script: what
    [path.open] raises leaves the function. *)
Definition validate_patch_file (w : world) (path : string)
  : result (list string) :=
  match file_text w path with
  | None => Raised (OSError path)
  | Some text => Returned (validate_lines (readlines text))
  end.

(** ** [main] *)

(** What [main] prints, one event per [print] call or group of calls:
    the diagnostic on [sys.stderr], the progress line, the failure marker
    with its indented line per violation, the success marker. *)
Inductive event :=
| Diagnostic (msg : string)
| Validating (f : string)
| Errors (f : string) (errs : list string)
| Ok (f : string).

(** The [for f in files] loop, from the value of [overall_failed] on. *)
Fixpoint for_files (w : world) (files : list string) (overall_failed : bool)
  : list event * result bool :=
  match files with
  | [] => ([], Returned overall_failed)
  | f :: rest =>
      match validate_patch_file w f with
      | Raised e => ([Validating f], Raised e)
      | Returned [] =>
          let '(out, r) := for_files w rest overall_failed in
          (Validating f :: Ok f :: out, r)
      | Returned ((_ :: _) as errs) =>
          let '(out, r) := for_files w rest true in
          (Validating f :: Errors f errs :: out, r)
      end
  end.

(** [main(argv)] from [if not files:] on. *)
Definition main_files (w : world) (files : list string)
  : list event * result nat :=
  match files with
  | [] => ([Diagnostic "No patch files found."], Returned 1)
  | _ :: _ =>
      let '(out, r) := for_files w files false in
      (out,
       match r with
       | Returned overall_failed => Returned (if overall_failed then 1 else 0)
       | Raised e => Raised e
       end)
  end.

Definition main (w : world) (argv : list string) : list event * result nat :=
  if 1 <? length argv then main_files w (drop 1 argv)
  else if negb (patches_exists w) then
    ([Diagnostic "No patches/ folder found and no paths given."], Returned 1)
  else main_files w (glob_patch w ++ glob_diff w).

(** The files [main] goes through: the paths given, or else what the scan
    of [patches] finds; [None] when there is neither. *)
Definition input_files (w : world) (argv : list string)
  : option (list string) :=
  if 1 <? length argv then Some (drop 1 argv)
  else if negb (patches_exists w) then None
  else Some (glob_patch w ++ glob_diff w).

(** The exit status of [sys.exit(main(sys.argv))]: the value [main] returns,
    and 1 when an exception leaves [main] (the interpreter prints the
    traceback and exits with status 1). *)
Definition exit_status (r : result nat) : nat :=
  match r with
  | Returned code => code
  | Raised _ => 1
  end.

(** ** Sample inputs *)

Module Sample.

(** A text from its lines, each ended by LF. *)
Definition text_of (ls : list string) : string :=
  String.concat "" ((fun l => l +:+ Str.NL) <$> ls).

Definition diff_line : string := "diff --git a/x b/x".

(** The file that holds the diff line alone, without and with the LF. *)
Definition diff_only : string := diff_line.
Definition diff_only_nl : string := diff_line +:+ Str.NL.

(** The header line of a field, with its line end. *)
Definition header_line (key value : string) : string :=
  key +:+ ": " +:+ value +:+ Str.NL.

(** A value as a header line gives it: no line feed in it, no white space
    around it. *)
Definition plain (value : string) : Prop :=
  Str.strip value = value
  ∧ Str.all (fun c => negb (Ascii.eqb c Char.NL)) value = true.

(** The six fields in the order of [REQUIRED_KEYS], then the diff line, then
    any lines. *)
Definition canonical (jira upstream title author date desc : string)
    (rest : list string) : list string :=
  [header_line "JIRA" jira; header_line "Upstream" upstream;
   header_line "Title" title; header_line "Author" author;
   header_line "Date" date; header_line "Description" desc;
   diff_line +:+ Str.NL] ++ rest.

(** Three bad values, the other three fields present. *)
Definition three_bad : string :=
  text_of ["JIRA: nottickets"; "Upstream: sure"; "Title: Fix the build";
           "Author: A. Developer"; "Date: 2024-01-01";
           "Description: short"; diff_line].

(** The same, with [Description] before [Title], [Author] and [Date]: the
    three lines after it continue the description. *)
Definition three_bad_description_first : string :=
  text_of ["JIRA: nottickets"; "Upstream: sure"; "Description: short";
           "Title: Fix the build"; "Author: A. Developer";
           "Date: 2024-01-01"; diff_line].

(** A header with six valid fields. *)
Definition all_valid : string :=
  text_of ["JIRA: ABC-123"; "Upstream: no"; "Title: Fix the build";
           "Author: A. Developer"; "Date: 2024-01-01";
           "Description: Carried until upstream takes it."; diff_line].

(** The same six valid fields, the [Description] line first. *)
Definition valid_description_first : string :=
  text_of ["Description: Carried until upstream takes it."; "JIRA: ABC-123";
           "Upstream: no"; "Title: Fix the build"; "Author: A. Developer";
           "Date: 2024-01-01"; diff_line].

(** Descriptions of 20 and of 19 characters. *)
Definition description_20 : string :=
  text_of ["Description: 12345678901234567890"; diff_line].
Definition description_19 : string :=
  text_of ["Description: 1234567890123456789"; diff_line].

Definition upstream_YES : string := text_of ["Upstream: YES"; diff_line].
Definition upstream_maybe : string :=
  text_of ["Upstream: maybe"; diff_line].

(** [Description] on two header lines, a blank line between them. *)
Definition two_descriptions : list string :=
  readlines (text_of ["Description: first"; "goes on"; "";
                      "Description: second"; diff_line]).

(** A directory with a clean patch, a patch with violations and an empty
    one; no other path opens. *)
Definition files (path : string) : option string :=
  if String.eqb path "good.patch" then Some all_valid
  else if String.eqb path "bad.patch" then Some three_bad
  else if String.eqb path "empty.patch" then Some ""
  else None.

Definition w : world := World files false [] [].

(** The same files, found by the scan of [patches]. *)
Definition w_scan : world := World files true ["good.patch"] [].

Definition prog : string := "validate_patch.py".

(** The state after one run of the body from [st]. *)
Definition after (lines : list string) (st : state) : state :=
  match lines !! i st with
  | Some raw =>
      match body lines st raw with
      | Continue st' => st'
      | Break st' => st'
      end
  | None => st
  end.

(** The states of the loop on [two_descriptions]: after the first
    [Description] line and its continuation, after the blank line, after
    the second [Description] line. *)
Definition first_done : state := after two_descriptions init.
Definition at_second : state := after two_descriptions first_done.
Definition second_done : state := after two_descriptions at_second.

End Sample.

(** ** Notions of the further properties *)

(** The index of the first line that starts a diff; the number of lines
    when there is none. *)
Fixpoint first_diff (lines : list string) : nat :=
  match lines with
  | [] => 0
  | ln :: rest => if Re.diff_start ln then 0 else S (first_diff rest)
  end.

(** A text with a ticket key in it: a letter, one or more letters or digits,
    a hyphen and a digit, anywhere in the text. *)
Definition ticket_shape (s : string) : Prop :=
  ∃ before c run d rest,
    s = before +:+ String c (run +:+ String "-" (String d rest))
    ∧ Char.is_letter c = true ∧ run ≠ ""
    ∧ Str.all Char.is_alnum run = true ∧ Char.is_digit d = true.

(** A line that continues a description: neither a diff line nor blank. *)
Definition continues (ln : string) : bool :=
  negb (Re.diff_start ln || Str.is_empty (Str.strip ln)).

(** A line the loop passes over without a change of the fields: a blank
    line, or a line that is neither a header line nor a diff line. *)
Definition passed_over (raw : string) : bool :=
  let line := Str.rstrip_nl raw in
  Str.is_empty (Str.strip line)
  || (match Re.header line with Some _ => false | None => true end
      && negb (Re.diff_start line)).

(** Where a field of the mapping comes from: a header line before [i] with
    that name; for a field other than [Description] the value is the
    trimmed value of that line. *)
Definition from_header_line (lines : list string) (bound : nat)
    (key v : string) : Prop :=
  ∃ k raw value,
    k < bound ∧ lines !! k = Some raw
    ∧ Re.header (Str.rstrip_nl raw) = Some (key, value)
    ∧ (key ≠ "Description" → v = Str.strip value).

(** The header lines of a list of fields, in their order. *)
Definition field_lines (pairs : list (string * string)) : list string :=
  (fun kv => Sample.header_line kv.1 kv.2) <$> pairs.

(** A field that a header line gives back as it is: a name of letters other
    than [Description], and a plain value. *)
Definition plain_field (kv : string * string) : Prop :=
  kv.1 ≠ "" ∧ Str.all Char.is_letter kv.1 = true ∧ kv.1 ≠ "Description"
  ∧ Sample.plain kv.2.

(** A state, and the end of a run of the body, with [i] moved by [n]. *)
Definition shift (n : nat) (st : state) : state :=
  State (fields st) (desc_lines st) (n + i st).

Definition shift_flow (n : nat) (fl : flow) : flow :=
  match fl with
  | Break st => Break (shift n st)
  | Continue st => Continue (shift n st)
  end.

(** The violations of a file that opens. *)
Definition violations (w : world) (f : string) : list string :=
  match file_text w f with
  | Some text => validate_lines (readlines text)
  | None => []
  end.

(** What [main] prints after the progress line of a file with the
    violations [errs]. *)
Definition verdict (f : string) (errs : list string) : event :=
  match errs with
  | [] => Ok f
  | _ :: _ => Errors f errs
  end.

(** * Properties *)

(** ** The loop of [parse_header] *)

Section Loop.

Implicit Types (lines desc : list string) (st : state).

(** The inner loop only appends to [desc_lines] and only moves [j]
    forward, by at most the number of lines it was given. *)
Lemma collect_grows from_j desc j desc' j' :
  collect from_j desc j = (desc', j') →
  desc `prefix_of` desc' ∧ j ≤ j' ≤ j + length from_j.
Proof.
  revert desc j. induction from_j as [|ln rest IH]; intros desc j; simpl.
  - intros [= <- <-]. split; [done | lia].
  - destruct (Re.diff_start ln || Str.is_empty (Str.strip ln)).
    + intros [= <- <-]. split; [done | lia].
    + intros H. apply IH in H as [Hp Hj]. split; [|lia].
      etrans; [|exact Hp]. by apply prefix_app_r.
Qed.

(** The inner loop does not look beyond the line it stops at. *)
Lemma collect_take from_j desc j desc' j' m :
  collect from_j desc j = (desc', j') →
  j' ≤ j + m →
  collect (take m from_j) desc j = (desc', j').
Proof.
  revert desc j m. induction from_j as [|ln rest IH]; intros desc j m; simpl.
  - by rewrite take_nil.
  - destruct (Re.diff_start ln || Str.is_empty (Str.strip ln)) eqn:Hstop.
    + intros [= <- <-] _. destruct m; simpl; [done|]. by rewrite Hstop.
    + intros H Hm. destruct (collect_grows _ _ _ _ _ H) as [_ Hj].
      destruct m as [|m]; [lia|]. simpl. rewrite Hstop.
      apply IH; [done | lia].
Qed.

(** Every run of the body that does not [break] moves [i] forward, and
    none moves it beyond the end. *)
Lemma body_continue_i lines st raw st' :
  lines !! i st = Some raw →
  body lines st raw = Continue st' →
  i st < i st' ≤ length lines.
Proof.
  intros Hraw. apply lookup_lt_Some in Hraw. unfold body.
  destruct (Str.is_empty (Str.strip (Str.rstrip_nl raw))).
  - destruct (lines !! S (i st)) as [next|] eqn:Hnext.
    + destruct (Re.diff_start next); intros [= <-]; simpl. lia.
    + intros [= <-]; simpl. lia.
  - destruct (Re.header (Str.rstrip_nl raw)) as [[key value]|].
    + destruct (String.eqb (Str.strip key) "Description").
      * destruct (collect _ _ _) as [desc' j] eqn:Hc.
        intros [= <-]; simpl. apply collect_grows in Hc as [_ Hj].
        rewrite length_drop in Hj. lia.
      * intros [= <-]; simpl. lia.
    + destruct (Re.diff_start (Str.rstrip_nl raw)); intros [= <-]; simpl. lia.
Qed.

Lemma body_break_i lines st raw st' :
  lines !! i st = Some raw →
  body lines st raw = Break st' →
  i st ≤ i st' < length lines.
Proof.
  intros Hraw. apply lookup_lt_Some in Hraw. unfold body.
  destruct (Str.is_empty (Str.strip (Str.rstrip_nl raw))).
  - destruct (lines !! S (i st)) as [next|] eqn:Hnext; [|done].
    apply lookup_lt_Some in Hnext.
    destruct (Re.diff_start next); intros [= <-]; simpl. lia.
  - destruct (Re.header (Str.rstrip_nl raw)) as [[key value]|].
    + destruct (String.eqb (Str.strip key) "Description"); [|done].
      by destruct (collect _ _ _).
    + destruct (Re.diff_start (Str.rstrip_nl raw)); [|done].
      intros [= <-]. lia.
Qed.

(** The loop ends within [S (length lines - i)] runs of its body. *)
Lemma while_loop_ends fuel lines st :
  length lines - i st < fuel → is_Some (while_loop fuel lines st).
Proof.
  revert st. induction fuel as [|fuel IH]; intros st Hfuel; simpl; [lia|].
  destruct (lines !! i st) as [raw|] eqn:Hraw; [|by eexists].
  destruct (body lines st raw) as [st'|st'] eqn:Hbody; [by eexists|].
  apply IH. pose proof (body_continue_i _ _ _ _ Hraw Hbody).
  apply lookup_lt_Some in Hraw. lia.
Qed.

(** More runs than needed change nothing. *)
Lemma while_loop_more fuel fuel' lines st st' :
  while_loop fuel lines st = Some st' →
  fuel ≤ fuel' →
  while_loop fuel' lines st = Some st'.
Proof.
  revert fuel' st. induction fuel as [|fuel IH]; intros fuel' st; [done|].
  intros H Hle. destruct fuel' as [|fuel']; [lia|]. simpl in *.
  destruct (lines !! i st) as [raw|]; [|done].
  destruct (body lines st raw); [done|]. apply IH; [done | lia].
Qed.

(** Where the loop ends: not before where it started, not beyond the end
    of [lines]. *)
Lemma while_loop_i fuel lines st st' :
  while_loop fuel lines st = Some st' →
  i st ≤ length lines →
  i st ≤ i st' ≤ length lines.
Proof.
  revert st. induction fuel as [|fuel IH]; intros st; [done|]. simpl.
  destruct (lines !! i st) as [raw|] eqn:Hraw.
  - destruct (body lines st raw) as [st1|st1] eqn:Hbody.
    + intros [= <-] _. pose proof (body_break_i _ _ _ _ Hraw Hbody). lia.
    + intros H _. pose proof (body_continue_i _ _ _ _ Hraw Hbody).
      apply IH in H; lia.
  - intros [= <-]. lia.
Qed.

(** The inner loop and the loop keep what [desc_lines] holds. *)
Lemma body_desc_lines lines st raw st' :
  body lines st raw = Continue st' ∨ body lines st raw = Break st' →
  desc_lines st `prefix_of` desc_lines st'.
Proof.
  unfold body.
  destruct (Str.is_empty (Str.strip (Str.rstrip_nl raw))).
  - destruct (lines !! S (i st)) as [next|].
    + destruct (Re.diff_start next); intros [[= <-]|[= <-]]; done.
    + intros [[= <-]|[=]]; done.
  - destruct (Re.header (Str.rstrip_nl raw)) as [[key value]|].
    + destruct (String.eqb (Str.strip key) "Description").
      * destruct (collect _ _ _) as [desc' j] eqn:Hc.
        intros [[= <-]|[=]]; simpl. apply collect_grows in Hc as [Hp _].
        destruct (Str.is_empty value); [done|].
        etrans; [|exact Hp]. by apply prefix_app_r.
      * intros [[= <-]|[=]]; done.
    + destruct (Re.diff_start (Str.rstrip_nl raw));
        intros [[= <-]|[= <-]]; done.
Qed.

End Loop.

(** ** The cursor (C5) *)

Section Cursor.

Implicit Types (lines : list string) (st : state).

(** [parse_header] always comes to the end of its loop. *)
Lemma parse_header_loop_ends lines :
  ∃ st, parse_header_loop lines = Some st ∧ i st ≤ length lines.
Proof.
  destruct (while_loop_ends (S (length lines)) lines init) as [st Hst];
    [simpl; lia|].
  exists st. split; [done|].
  apply while_loop_i in Hst; simpl in *; lia.
Qed.

(** A run of the body that goes on to [st'] is the same run on the lines
    before any index [c] that [st'] has not passed. *)
Lemma body_take lines st raw st' c :
  body lines st raw = Continue st' →
  i st' ≤ c →
  body (take c lines) st raw = Continue st'.
Proof.
  unfold body.
  destruct (Str.is_empty (Str.strip (Str.rstrip_nl raw))).
  - rewrite lookup_take. case_decide as Hc.
    + destruct (lines !! S (i st)) as [next|]; [|done].
      by destruct (Re.diff_start next).
    + destruct (lines !! S (i st)) as [next|].
      * destruct (Re.diff_start next); [done|].
        intros [= <-]; done.
      * done.
  - destruct (Re.header (Str.rstrip_nl raw)) as [[key value]|]; [|done].
    destruct (String.eqb (Str.strip key) "Description"); [|done].
    destruct (collect (drop _ lines) _ _) as [desc' j] eqn:Hcollect.
    intros [= <-]; simpl. intros Hj.
    replace c with (S (i st) + (c - S (i st))) at 1
      by (apply collect_grows in Hcollect; lia).
    rewrite <-take_drop_commute.
    by rewrite (collect_take _ _ _ _ _ _ Hcollect) by lia.
Qed.

(** The loop on the lines before the index at which it ends comes to the
    same end. *)
Lemma while_loop_take fuel lines st st' :
  while_loop fuel lines st = Some st' →
  while_loop (S fuel) (take (i st') lines) st = Some st'.
Proof.
  revert st. induction fuel as [|fuel IH]; intros st; [done|].
  intros Hloop. change (while_loop (S (S fuel)) ?l ?s) with
    (match l !! i s with
     | None => Some s
     | Some raw =>
         match body l s raw with
         | Break s' => Some s'
         | Continue s' => while_loop (S fuel) l s'
         end
     end).
  simpl in Hloop.
  destruct (lines !! i st) as [raw|] eqn:Hraw.
  - destruct (body lines st raw) as [st1|st1] eqn:Hbody.
    + (* [break] *)
      injection Hloop as <-. revert Hbody. unfold body.
      destruct (Str.is_empty (Str.strip (Str.rstrip_nl raw))) eqn:Hblank.
      * destruct (lines !! S (i st)) as [next|] eqn:Hnext; [|done].
        destruct (Re.diff_start next); [|done].
        intros [= <-]; simpl.
        rewrite lookup_take_lt, Hraw by lia. unfold body. rewrite Hblank.
        rewrite lookup_take_ge by done. simpl.
        by rewrite lookup_take_ge by (simpl; lia).
      * destruct (Re.header (Str.rstrip_nl raw)) as [[key value]|].
        -- destruct (String.eqb (Str.strip key) "Description"); [|done].
           by destruct (collect _ _ _).
        -- destruct (Re.diff_start (Str.rstrip_nl raw)); [|done].
           intros [= <-]. by rewrite lookup_take_ge.
    + (* the loop goes on *)
      pose proof (body_continue_i _ _ _ _ Hraw Hbody) as Hi.
      pose proof (while_loop_i _ _ _ _ Hloop ltac:(lia)) as Hi'.
      rewrite lookup_take_lt, Hraw by lia.
      rewrite (body_take _ _ _ _ _ Hbody) by lia.
      by apply IH.
  - injection Hloop as <-. by rewrite lookup_take_ge.
Qed.

Lemma parse_header_loop_take lines st :
  parse_header_loop lines = Some st →
  parse_header_loop (take (i st) lines) = Some st.
Proof.
  intros Hloop.
  destruct (parse_header_loop_ends (take (i st) lines)) as (st' & Hst' & _).
  rewrite Hst'. unfold parse_header_loop in *.
  apply while_loop_take in Hloop.
  eapply while_loop_more in Hloop; [|apply Nat.le_max_l].
  eapply while_loop_more in Hst'; [|apply Nat.le_max_r].
  rewrite Hloop in Hst'. by injection Hst' as ->.
Qed.

(** The inner loop gives the same result on any lines that begin like the
    ones it has read, the line it stopped at included. *)
Lemma collect_ext from_j from_j' desc j desc' j' m :
  take m from_j' = take m from_j →
  collect from_j desc j = (desc', j') →
  j' < j + m →
  collect from_j' desc j = (desc', j').
Proof.
  revert from_j' desc j m.
  induction from_j as [|ln rest IH]; intros from_j' desc j m Htake; simpl.
  - intros [= <- <-] Hm. destruct m as [|m]; [lia|].
    by destruct from_j'.
  - destruct m as [|m].
    { intros Hc Hm.
      pose proof (collect_grows (ln :: rest) desc j desc' j' Hc). lia. }
    destruct from_j' as [|ln' rest']; [done|].
    injection Htake as -> Htake. simpl.
    destruct (Re.diff_start ln || Str.is_empty (Str.strip ln)); [done|].
    intros Hc Hm. eapply IH; [done..|lia].
Qed.

(** A loop that ends at a line of [lines] comes to the same end on any
    lines that are the same up to that line. *)
Lemma while_loop_ext fuel lines lines' st st' :
  while_loop fuel lines st = Some st' →
  i st' < length lines →
  take (S (i st')) lines' = take (S (i st')) lines →
  while_loop fuel lines' st = Some st'.
Proof.
  intros Hloop Hlt Htake.
  assert (∀ k, k ≤ i st' → lines' !! k = lines !! k) as Hsame.
  { intros k Hk.
    rewrite <-(lookup_take_lt lines' (S (i st'))), Htake by lia.
    apply lookup_take_lt. lia. }
  revert st Hloop. induction fuel as [|fuel IH]; intros st; [done|]. simpl.
  destruct (lines !! i st) as [raw|] eqn:Hraw; last first.
  { intros [= <-]. apply lookup_ge_None_1 in Hraw. lia. }
  destruct (body lines st raw) as [st1|st1] eqn:Hbody.
  - (* [break] *)
    intros [= <-]. pose proof (body_break_i _ _ _ _ Hraw Hbody) as Hi.
    rewrite Hsame, Hraw by lia.
    enough (body lines' st raw = Break st1) as -> by done.
    revert Hbody. unfold body.
    destruct (Str.is_empty (Str.strip (Str.rstrip_nl raw))).
    + destruct (lines !! S (i st)) as [next|] eqn:Hnext; [|done].
      destruct (Re.diff_start next) eqn:Hdiff; [|done].
      intros [= <-]. simpl in *. by rewrite Hsame, Hnext, Hdiff.
    + destruct (Re.header (Str.rstrip_nl raw)) as [[key value]|]; [|done].
      destruct (String.eqb (Str.strip key) "Description"); [|done].
      by destruct (collect _ _ _).
  - (* the loop goes on *)
    intros Hloop. pose proof (body_continue_i _ _ _ _ Hraw Hbody) as Hi.
    pose proof (while_loop_i _ _ _ _ Hloop ltac:(lia)) as Hi'.
    rewrite Hsame, Hraw by lia.
    enough (body lines' st raw = Continue st1) as -> by by apply IH.
    revert Hbody. unfold body.
    destruct (Str.is_empty (Str.strip (Str.rstrip_nl raw))).
    + by rewrite Hsame by lia.
    + destruct (Re.header (Str.rstrip_nl raw)) as [[key value]|]; [|done].
      destruct (String.eqb (Str.strip key) "Description"); [|done].
      destruct (collect (drop _ lines) _ _) as [desc' j] eqn:Hcollect.
      intros [= <-]. simpl in *.
      rewrite (collect_ext (drop (S (i st)) lines) (drop (S (i st)) lines')
                 _ _ desc' j (S (i st') - S (i st))); [done| |done|lia].
      rewrite !take_drop_commute.
      replace (S (i st) + (S (i st') - S (i st))) with (S (i st')) by lia.
      by rewrite Htake.
Qed.

Lemma parse_header_loop_ext lines other st :
  parse_header_loop lines = Some st →
  i st < length lines →
  parse_header_loop (take (S (i st)) lines ++ other) = Some st.
Proof.
  intros Hloop Hlt.
  destruct (parse_header_loop_ends (take (S (i st)) lines ++ other))
    as (st' & Hst' & _).
  rewrite Hst'. unfold parse_header_loop in *.
  apply (while_loop_ext _ _ (take (S (i st)) lines ++ other)) in Hloop;
    [|done|]; last first.
  { rewrite take_app_le by (rewrite length_take; lia). by rewrite take_idemp. }
  eapply while_loop_more in Hloop; [|apply Nat.le_max_l].
  eapply while_loop_more in Hst'; [|apply Nat.le_max_r].
  rewrite Hloop in Hst'. by injection Hst' as ->.
Qed.

End Cursor.

(** C5.  For every sequence of lines, the index at which [parse_header] ends
    is at most the number of lines; the lines it returns as remaining are
    the lines from that index on, so the input is the lines before the
    cursor followed by the remaining ones; no line at or after the cursor
    has a part in the field mapping: the mapping is the one [parse_header]
    computes from the lines before the cursor alone, and when the loop
    stopped at a line, it is the same whatever lines follow that line; on
    no lines at all the mapping is empty and the cursor is 0. *)
Theorem parse_header_cursor (lines : list string) :
  cursor lines ≤ length lines
  ∧ (parse_header lines).2 = drop (cursor lines) lines
  ∧ lines = take (cursor lines) lines ++ (parse_header lines).2
  ∧ (parse_header (take (cursor lines) lines)).1 = (parse_header lines).1
  ∧ cursor (take (cursor lines) lines) = cursor lines
  ∧ (∀ other, cursor lines < length lines →
       (parse_header (take (S (cursor lines)) lines ++ other)).1
       = (parse_header lines).1
       ∧ cursor (take (S (cursor lines)) lines ++ other) = cursor lines)
  ∧ parse_header [] = (∅, [])
  ∧ cursor [] = 0.
Proof.
  destruct (parse_header_loop_ends lines) as (st & Hst & Hi).
  pose proof (parse_header_loop_take _ _ Hst) as Htake.
  pose proof (parse_header_loop_ext lines) as Hext.
  unfold cursor, parse_header in *. rewrite Hst. simpl. rewrite Htake. simpl.
  repeat split; try done.
  - by rewrite take_drop.
  - by rewrite (Hext other st).
  - by rewrite (Hext other st).
Qed.

(** ** Strings *)

Section Strings.

Implicit Types (s : string) (c : ascii).

Lemma is_empty_true s : Str.is_empty s = true ↔ s = EmptyString.
Proof. by destruct s. Qed.

Lemma rstrip_by_empty p s c :
  Str.rstrip_by p s = EmptyString → Str.mem c s = true → p c = true.
Proof.
  induction s as [|d s IH]; simpl; [done|].
  destruct (Str.rstrip_by p s) eqn:Hr; simpl; [|done].
  destruct (p d) eqn:Hd; [|done]. intros _.
  destruct (Ascii.eqb_spec c d) as [->|_]; simpl; [done|]. by apply IH.
Qed.

Lemma lstrip_mem s c :
  Str.mem c s = true →
  Char.is_space c = true ∨ Str.mem c (Str.lstrip s) = true.
Proof.
  induction s as [|d s IH]; simpl; [done|].
  destruct (Char.is_space d) eqn:Hd.
  - destruct (Ascii.eqb_spec c d) as [->|_]; simpl; [by left | done].
  - by right.
Qed.

(** A text that [strip()] empties holds white space only. *)
Lemma strip_empty s c :
  Str.strip s = EmptyString → Str.mem c s = true → Char.is_space c = true.
Proof.
  intros Hs Hc. destruct (lstrip_mem _ _ Hc) as [|Hc']; [done|].
  by apply (rstrip_by_empty _ _ _ Hs).
Qed.

Lemma letter_not_space c : Char.is_letter c = true → Char.is_space c = false.
Proof. destruct c as [[] [] [] [] [] [] [] []]; by vm_compute. Qed.

(** A text in which [JIRA_RE] is found holds a letter. *)
Lemma jira_search_letter s :
  Re.jira_search s = true →
  ∃ c, Str.mem c s = true ∧ Char.is_letter c = true.
Proof.
  induction s as [|d s IH]; simpl; [done|].
  destruct (Char.is_letter d) eqn:Hd; simpl.
  - intros _. exists d. by rewrite Ascii.eqb_refl.
  - intros [c [Hc Hl]]%IH. exists c. rewrite Hc. by rewrite orb_true_r.
Qed.

Lemma jira_search_not_blank s :
  Re.jira_search s = true → Str.is_empty (Str.strip s) = false.
Proof.
  intros (c & Hc & Hl)%jira_search_letter.
  destruct (Str.is_empty (Str.strip s)) eqn:He; [|done].
  apply is_empty_true in He.
  pose proof (strip_empty _ _ He Hc) as Hsp.
  by rewrite (letter_not_space _ Hl) in Hsp.
Qed.

Lemma len_not_blank s : 0 < Str.len s → Str.is_empty s = false.
Proof. destruct s; simpl; [lia | done]. Qed.

Lemma all_app p s t :
  Str.all p (s +:+ t) = Str.all p s && Str.all p t.
Proof. induction s as [|c s IH]; simpl; [done|]. by rewrite IH, andb_assoc. Qed.

Lemma all_impl (p q : ascii → bool) s :
  (∀ c, p c = true → q c = true) → Str.all p s = true → Str.all q s = true.
Proof.
  intros Hpq. induction s as [|c s IH]; simpl; [done|].
  intros [Hc Hs]%andb_true_iff. by rewrite (Hpq c Hc), IH.
Qed.

(** [span] cuts its argument in two, all of the first part in the class and
    the second part not starting in it. *)
Lemma span_spec p s a b :
  Str.span p s = (a, b) →
  s = a +:+ b ∧ Str.all p a = true
  ∧ match b with String c _ => p c = false | EmptyString => True end.
Proof.
  revert a. induction s as [|c s IH]; intros a; simpl.
  - by intros [= <- <-].
  - destruct (p c) eqn:Hc.
    + destruct (Str.span p s) as [a' b'] eqn:Hspan. intros [= <- <-].
      destruct (IH a' eq_refl) as (-> & Ha & Hb). simpl. by rewrite Hc, Ha.
    + intros [= <- <-]. simpl. by rewrite Hc.
Qed.

Lemma span_all p a b :
  Str.all p a = true →
  match b with String c _ => p c = false | EmptyString => True end →
  Str.span p (a +:+ b) = (a, b).
Proof.
  induction a as [|c a IH]; simpl.
  - intros _. destruct b as [|c b]; [done|]. simpl. by intros ->.
  - intros [Hc Ha]%andb_true_iff Hb. by rewrite Hc, IH.
Qed.

Lemma append_cons c s t : String c s +:+ t = String c (s +:+ t).
Proof. reflexivity. Qed.

Lemma append_empty_r s : s +:+ "" = s.
Proof. induction s as [|c s IH]; [done|]. by rewrite append_cons, IH. Qed.

Lemma append_assoc s t u : (s +:+ t) +:+ u = s +:+ t +:+ u.
Proof. induction s as [|c s IH]; [done|]. by rewrite !append_cons, IH. Qed.

(** [rstrip] leaves a text with no character to remove as it is, and
    removes a character of the class at the end. *)
Lemma rstrip_by_id p s :
  Str.all (fun c => negb (p c)) s = true → Str.rstrip_by p s = s.
Proof.
  induction s as [|c s IH]; simpl; [done|].
  intros [Hc Hs]%andb_true_iff. rewrite (IH Hs).
  apply negb_true_iff in Hc. by rewrite Hc, andb_false_r.
Qed.

Lemma rstrip_by_last p s c :
  p c = true →
  Str.rstrip_by p (s +:+ String c "") = Str.rstrip_by p s.
Proof.
  intros Hc. induction s as [|d s IH]; simpl; [by rewrite Hc | by rewrite IH].
Qed.

Lemma rstrip_by_length p s : String.length (Str.rstrip_by p s) ≤ String.length s.
Proof.
  induction s as [|c s IH]; simpl; [done|].
  destruct (Str.is_empty (Str.rstrip_by p s) && p c); simpl; lia.
Qed.

Lemma lstrip_length s :
  Str.lstrip s = s ∨ String.length (Str.lstrip s) < String.length s.
Proof.
  induction s as [|c s IH]; simpl; [by left|].
  destruct (Char.is_space c); [|by left]. right. destruct IH as [->|]; lia.
Qed.

(** A text that [strip()] leaves as it is has no white space at its
    start and none at its end. *)
Lemma strip_fixed s :
  Str.strip s = s → Str.lstrip s = s ∧ Str.rstrip s = s.
Proof.
  unfold Str.strip. intros Hs.
  assert (Str.lstrip s = s) as Hl.
  { destruct (lstrip_length s) as [|Hlt]; [done|].
    pose proof (rstrip_by_length Char.is_space (Str.lstrip s)) as Hle.
    unfold Str.rstrip in Hs. rewrite Hs in Hle. lia. }
  split; [done|]. by rewrite Hl in Hs.
Qed.

Lemma lstrip_fixed_head s :
  Str.lstrip s = s →
  match s with String c _ => Char.is_space c = false | EmptyString => True end.
Proof.
  destruct s as [|c s]; simpl; [done|].
  destruct (Char.is_space c); [|done]. intros H.
  destruct (lstrip_length s) as [Heq|Hlt].
  - rewrite Heq in H. apply (f_equal String.length) in H. simpl in H. lia.
  - rewrite H in Hlt. simpl in Hlt. lia.
Qed.

Lemma letter_not_nl c :
  Char.is_letter c = true → negb (Ascii.eqb c Char.NL) = true.
Proof. destruct c as [[] [] [] [] [] [] [] []]; by vm_compute. Qed.

(** A name made of letters is its own [strip()]. *)
Lemma strip_letters key :
  Str.all Char.is_letter key = true → Str.strip key = key.
Proof.
  intros Hkey. unfold Str.strip, Str.rstrip.
  assert (Str.lstrip key = key) as ->.
  { destruct key as [|c key]; simpl in *; [done|].
    apply andb_true_iff in Hkey as [Hc _].
    by rewrite (letter_not_space _ Hc). }
  apply rstrip_by_id. revert Hkey. apply all_impl.
  intros c Hc. by rewrite (letter_not_space _ Hc).
Qed.

(** What the body reads on the header line of a field with a plain value:
    the line without its line end, which is not blank, and on which the
    header pattern gives the name and the value. *)
Lemma header_line_read key value :
  key ≠ "" → Str.all Char.is_letter key = true → Sample.plain value →
  Str.rstrip_nl (Sample.header_line key value) = key +:+ ": " +:+ value
  ∧ Str.is_empty (Str.strip (key +:+ ": " +:+ value)) = false
  ∧ Re.header (key +:+ ": " +:+ value) = Some (key, value).
Proof.
  intros Hne Hkey [Hstrip Hnl]. apply strip_fixed in Hstrip as [Hl Hr].
  split; [|split].
  - unfold Sample.header_line, Str.rstrip_nl, Str.NL.
    rewrite <-!append_assoc. rewrite rstrip_by_last by done.
    apply rstrip_by_id. rewrite !all_app, Hnl. simpl.
    rewrite (all_impl Char.is_letter _ key); [done| |done].
    intros c Hc. rewrite (letter_not_nl c Hc). done.
  - destruct key as [|c key]; [done|]. simpl in Hkey.
    apply andb_true_iff in Hkey as [Hc _]. unfold Str.strip. simpl.
    rewrite (letter_not_space _ Hc). unfold Str.rstrip. simpl.
    by rewrite (letter_not_space _ Hc), andb_false_r.
  - unfold Re.header.
    rewrite (span_all Char.is_letter key (": " +:+ value)) by done.
    destruct key as [|c key]; [done|]. simpl Str.is_empty. cbv iota.
    change (": " +:+ value) with (String ":"%char (" " +:+ value)).
    cbv beta iota.
    rewrite (span_all Char.is_space " " value);
      [|done|by apply lstrip_fixed_head].
    rewrite <-(append_empty_r value) at 1.
    rewrite (span_all _ value "") by done. done.
Qed.

End Strings.

(** ** The patterns *)

Section Patterns.

Implicit Types (s line key value : string) (c d : ascii).

(** [diff_start]: the text is one of the four markers followed by
    anything. *)
Lemma diff_start_spec s :
  Re.diff_start s = true ↔
  ∃ marker rest, s = marker +:+ rest
                 ∧ marker ∈ ["diff "; "+++ "; "--- "; "@@ "].
Proof.
  assert (∀ m, Str.startswith m s = true ↔ ∃ rest, s = m +:+ rest) as Hpre.
  { intros m. unfold Str.startswith. revert s.
    induction m as [|c m IH]; intros s.
    - split; [by exists s | by destruct s].
    - destruct s as [|d s]; simpl.
      + split; [done | by intros [rest [=]]].
      + destruct (ascii_dec c d) as [->|Hne].
        * rewrite IH. split; intros [rest Hrest]; exists rest.
          -- by rewrite append_cons, <-Hrest.
          -- rewrite append_cons in Hrest. by injection Hrest.
        * split; [done|]. intros [rest Hrest].
          rewrite append_cons in Hrest. by injection Hrest. }
  unfold Re.diff_start. rewrite !orb_true_iff, !Hpre. split.
  - intros [[[[rest ->]|[rest ->]]|[rest ->]]|[rest ->]];
      eexists _, rest; (split; [done|]);
      repeat (first [apply list_elem_of_here | apply list_elem_of_further]).
  - intros (marker & rest & -> & Hm).
    repeat (apply elem_of_cons in Hm as [->|Hm]);
      [..|by apply elem_of_nil in Hm]; eauto 6.
Qed.

(** [jira_here]: the text starts with a letter, one or more letters or
    digits, a hyphen and a digit. *)
Lemma jira_here_spec s :
  Re.jira_here s = true ↔
  ∃ c run d rest,
    s = String c (run +:+ String "-" (String d rest))
    ∧ Char.is_letter c = true ∧ run ≠ ""
    ∧ Str.all Char.is_alnum run = true ∧ Char.is_digit d = true.
Proof.
  split.
  - destruct s as [|c s]; simpl; [done|].
    destruct (Str.span Char.is_alnum s) as [run after] eqn:Hspan.
    apply span_spec in Hspan as (-> & Hrun & _).
    intros [Hc [Hne Hafter]%andb_true_iff]%andb_true_iff.
    destruct after as [|h [|d rest]]; [done| |].
    { by destruct h as [[] [] [] [] [] [] [] []]. }
    exists c, run, d, rest.
    assert (h = "-"%char) as ->
      by (by destruct h as [[] [] [] [] [] [] [] []]).
    repeat split; [done| |done|done]. by destruct run.
  - intros (c & run & d & rest & -> & Hc & Hne & Hrun & Hd). simpl.
    rewrite Hc, (span_all Char.is_alnum run) by done.
    destruct run; [done|]. by rewrite Hd.
Qed.

(** [JIRA_RE.search]: somewhere in the text there are a letter, one or more
    letters or digits, a hyphen and a digit. *)
Lemma jira_search_spec s :
  Re.jira_search s = true ↔
  ∃ before c run d rest,
    s = before +:+ String c (run +:+ String "-" (String d rest))
    ∧ Char.is_letter c = true ∧ run ≠ ""
    ∧ Str.all Char.is_alnum run = true ∧ Char.is_digit d = true.
Proof.
  split.
  - induction s as [|h s IH]; [done|].
    + cbn [Re.jira_search]. intros [Hhere|Hlater]%orb_true_iff.
      * apply jira_here_spec in Hhere as (c & run & d & rest & ? & ?).
        by exists "", c, run, d, rest.
      * apply IH in Hlater as (before & c & run & d & rest & -> & ?).
        by exists (String h before), c, run, d, rest.
  - intros (before & c & run & d & rest & -> & H).
    induction before as [|h before IH].
    + assert (Re.jira_here
                (String c (run +:+ String "-" (String d rest))) = true)
        as Hhere by (apply jira_here_spec; by exists c, run, d, rest).
      change ("" +:+ ?x) with x. cbn [Re.jira_search]. by rewrite Hhere.
    + rewrite append_cons. cbn [Re.jira_search]. rewrite IH.
      by rewrite orb_true_r.
Qed.

(** What [Re.header] gives is a match of the pattern, in which the white
    space after the colon is all taken before the value starts. *)
Lemma header_sound line key value :
  Re.header line = Some (key, value) →
  ∃ ws, header_shape line key ws value
        ∧ match value with
          | String c _ => Char.is_space c = false
          | EmptyString => True
          end.
Proof.
  unfold Re.header.
  destruct (Str.span Char.is_letter line) as [k after_key] eqn:Hkey.
  apply span_spec in Hkey as (-> & Hk & _).
  destruct (Str.is_empty k) eqn:Hne; [done|].
  destruct after_key as [|h rest]; [done|].
  assert (h = ":"%char ∨ h ≠ ":"%char) as [->|Hh]
    by (destruct (ascii_dec h ":"); [by left | by right]); last first.
  { by destruct h as [[] [] [] [] [] [] [] []]. }
  cbv beta iota.
  destruct (Str.span Char.is_space rest) as [ws tail] eqn:Hws.
  apply span_spec in Hws as (-> & Hws & Htail).
  destruct (Str.span _ tail) as [v after_value] eqn:Hv.
  apply span_spec in Hv as (-> & Hv & _).
  destruct (Str.is_empty after_value || String.eqb after_value Str.NL)
    eqn:Hend; [|done].
  intros [= <- <-]. exists ws. split.
  - split; [by destruct k|]. do 3 (split; [done|]).
    apply orb_true_iff in Hend as [Hend|Hend].
    + apply is_empty_true in Hend as ->. left. by rewrite append_empty_r.
    + apply String.eqb_eq in Hend as ->. by right.
  - destruct v as [|c v]; [done|]. by rewrite append_cons in Htail.
Qed.

Lemma lstrip_span s : (Str.span Char.is_space s).2 = Str.lstrip s.
Proof.
  induction s as [|c s IH]; simpl; [done|].
  destruct (Char.is_space c); [|done].
  by destruct (Str.span Char.is_space s).
Qed.

Lemma lstrip_app_space ws s :
  Str.all Char.is_space ws = true → Str.lstrip (ws +:+ s) = Str.lstrip s.
Proof.
  induction ws as [|c ws IH]; [done|]. rewrite append_cons. simpl.
  intros [Hc Hws]%andb_true_iff. rewrite Hc. by apply IH.
Qed.

(** The white space at the start of a text without line feed, or of such a
    text and the line feed that ends it, leaves such a text. *)
Lemma lstrip_line value :
  Str.all (fun c => negb (Ascii.eqb c Char.NL)) value = true →
  ∀ tail, tail = Str.lstrip value ∨ tail = Str.lstrip (value +:+ Str.NL) →
  ∃ v after,
    Str.span (fun c => negb (Ascii.eqb c Char.NL)) tail = (v, after)
    ∧ (after = "" ∨ after = Str.NL).
Proof.
  induction value as [|c value IH].
  - intros _ tail [->| ->]; exists "", ""; (split; [done | by left]).
  - rewrite append_cons. simpl.
    intros [Hc Hvalue]%andb_true_iff tail.
    destruct (Char.is_space c); [by apply IH|].
    assert (Str.all (fun c => negb (Ascii.eqb c Char.NL)) (String c value)
            = true) as Hall by (simpl; by rewrite Hc).
    intros [->| ->].
    + exists (String c value), "". split; [|by left].
      rewrite <-(append_empty_r (String c value)) at 1.
      by apply span_all.
    + exists (String c value), Str.NL. split; [|by right].
      rewrite <-append_cons. by apply span_all.
Qed.

(** [Re.header] gives a result on every text the pattern matches, with the
    name of the match. *)
Lemma header_complete line key ws value :
  header_shape line key ws value →
  ∃ value', Re.header line = Some (key, value').
Proof.
  intros (Hne & Hkey & Hws & Hvalue & Hline).
  assert (∃ tail, line = key +:+ String ":" tail
                  ∧ (Str.lstrip tail = Str.lstrip value
                     ∨ Str.lstrip tail = Str.lstrip (value +:+ Str.NL)))
    as (tail & -> & Htail).
  { destruct Hline as [->| ->].
    - exists (ws +:+ value). split; [done|]. left. by apply lstrip_app_space.
    - exists (ws +:+ value +:+ Str.NL). split; [done|]. right.
      by apply lstrip_app_space. }
  unfold Re.header. rewrite (span_all Char.is_letter key) by done.
  destruct key as [|c key]; [done|]. cbv beta iota. simpl Str.is_empty.
  cbv iota. pose proof (lstrip_span tail) as Hspan.
  destruct (Str.span Char.is_space tail) as [ws' tail']. simpl in Hspan.
  destruct (lstrip_line value Hvalue tail') as (v & after & -> & Hafter).
  { rewrite Hspan. destruct Htail as [->| ->]; [by left | by right]. }
  exists v. by destruct Hafter as [->| ->].
Qed.

End Patterns.

(** ** The checks of [validate_patch_file] *)

Section Checks.

Implicit Types (flds : gmap string string) (m : string).

Lemma parse_header_nil : parse_header [] = (∅, []).
Proof. reflexivity. Qed.

(** On a file with a parsed field the four checks run. *)
Lemma validate_lines_checks lines key v :
  (parse_header lines).1 !! key = Some v →
  validate_lines lines =
    check_required (parse_header lines).1 ++ check_jira (parse_header lines).1
      ++ check_upstream (parse_header lines).1
      ++ check_description (parse_header lines).1.
Proof. destruct lines; [by rewrite parse_header_nil | done]. Qed.

Lemma elem_of_check_required flds m :
  m ∈ check_required flds → ∃ key, m = Msg.missing key.
Proof.
  unfold check_required. intros (key & -> & _)%list_elem_of_fmap. by exists key.
Qed.

Lemma elem_of_check_jira flds m :
  m ∈ check_jira flds → ∃ v, m = Msg.jira v.
Proof.
  unfold check_jira. destruct (Str.is_empty _); [by intros ?%elem_of_nil|].
  destruct (Re.jira_search _); [by intros ?%elem_of_nil|].
  intros ->%list_elem_of_singleton. by eexists.
Qed.

Lemma elem_of_check_upstream flds m :
  m ∈ check_upstream flds ↔
  m = Msg.upstream (flds !! "Upstream")
  ∧ Str.lower (default "" (flds !! "Upstream")) ≠ "yes"
  ∧ Str.lower (default "" (flds !! "Upstream")) ≠ "no".
Proof.
  unfold check_upstream.
  destruct (String.eqb_spec (Str.lower (default "" (flds !! "Upstream"))) "yes")
    as [Hyes|Hyes]; simpl.
  { rewrite elem_of_nil. split; [done | by intros (_ & ? & _)]. }
  destruct (String.eqb_spec (Str.lower (default "" (flds !! "Upstream"))) "no")
    as [Hno|Hno].
  { rewrite elem_of_nil. split; [done | by intros (_ & _ & ?)]. }
  rewrite list_elem_of_singleton. split; [done | by intros [? _]].
Qed.

Lemma elem_of_check_description flds m :
  m ∈ check_description flds ↔
  m = Msg.description
  ∧ Str.len (Str.strip (default "" (flds !! "Description"))) < 20.
Proof.
  unfold check_description.
  destruct (Nat.ltb_spec (Str.len (Str.strip (default "" (flds !! "Description")))) 20)
    as [Hlt|Hge].
  - rewrite list_elem_of_singleton. split; [done | by intros [? _]].
  - rewrite elem_of_nil. split; [done | intros [_ ?]; lia].
Qed.

(** A required field that is there with a value that is not blank gives
    no message. *)
Lemma check_required_nil flds :
  (∀ key, key ∈ REQUIRED_KEYS → missing_or_empty flds key = false) →
  check_required flds = [].
Proof.
  intros H. unfold check_required.
  assert (Forall (fun key => missing_or_empty flds key = false) REQUIRED_KEYS)
    as HF by (apply Forall_forall; auto).
  clear H. induction HF as [|key keys Hkey _ IH]; [done|].
  rewrite filter_cons. destruct (decide _) as [Ht|_]; [congruence | exact IH].
Qed.

Lemma present_not_missing flds key v :
  flds !! key = Some v → Str.is_empty (Str.strip v) = false →
  missing_or_empty flds key = false.
Proof. unfold missing_or_empty. by intros -> ->. Qed.

End Checks.

(** ** The validator on given headers (C1, C3, C6, C7, C8) *)

(** Closed goals about sample inputs, by evaluation. *)
Ltac evaluate :=
  solve [ reflexivity
        | vm_compute; reflexivity
        | vm_compute; discriminate
        | vm_compute; lia
        | vm_compute; intros; discriminate ].

(** C8.  A file of zero bytes has no lines: [validate_patch_file] returns
    the one violation [Empty file], and nothing of the four checks. *)
Theorem empty_file_one_violation (w : world) (path : string) :
  file_text w path = Some "" →
  validate_patch_file w path = Returned [Msg.empty_file]
  ∧ readlines "" = []
  ∧ validate_lines [] = ["Empty file"].
Proof. unfold validate_patch_file. by intros ->. Qed.

Lemma empty_file_one_violation_witness :
  validate_patch_file Sample.w "empty.patch" = Returned [Msg.empty_file]
  ∧ readlines "" = []
  ∧ validate_lines [] = ["Empty file"].
Proof. apply (empty_file_one_violation Sample.w "empty.patch"). reflexivity. Defined.

(** C1, as the code has it.  The file that holds the line
    [diff --git a/x b/x] alone (with or without a line end) has an empty
    header, and [validate_lines] returns eight violations: the six for the
    missing required fields, then the one on the value of [Upstream], which
    reads [None], then the one on the length of the description.  The check
    of [JIRA] alone is skipped when the field is not there. *)
Theorem diff_only_eight_violations :
  (parse_header (readlines Sample.diff_only)).1 = ∅
  ∧ validate_lines (readlines Sample.diff_only) =
      (Msg.missing <$> REQUIRED_KEYS) ++ [Msg.upstream None; Msg.description]
  ∧ validate_lines (readlines Sample.diff_only_nl) =
      (Msg.missing <$> REQUIRED_KEYS) ++ [Msg.upstream None; Msg.description]
  ∧ check_jira ∅ = [].
Proof. by vm_compute. Qed.

(** C1, as stated, fails: on that file the violations are not six, and the
    ones on the value of [Upstream] and on the length of the description
    are among them. *)
Lemma diff_only_not_six_violations :
  length (validate_lines (readlines Sample.diff_only)) ≠ 6
  ∧ Msg.upstream None ∈ validate_lines (readlines Sample.diff_only)
  ∧ Msg.description ∈ validate_lines (readlines Sample.diff_only).
Proof.
  replace (validate_lines (readlines Sample.diff_only)) with
    ((Msg.missing <$> REQUIRED_KEYS) ++ [Msg.upstream None; Msg.description])
    by (by vm_compute).
  split; [by vm_compute|].
  split; apply elem_of_app; right; [apply list_elem_of_here|].
  apply list_elem_of_further, list_elem_of_here.
Qed.

(** C3, as the code has it.  When the parsed header has [JIRA] equal to
    [nottickets], [Upstream] equal to [sure], [Description] equal to [short],
    and [Title], [Author] and [Date] with values that are not blank, the
    violations are three in all: the ticket key, the value of [Upstream],
    the length of the description; no field is reported missing. *)
Theorem three_bad_values_three_violations
    (lines : list string) (title author date : string) :
  (parse_header lines).1 !! "JIRA" = Some "nottickets" →
  (parse_header lines).1 !! "Upstream" = Some "sure" →
  (parse_header lines).1 !! "Description" = Some "short" →
  (parse_header lines).1 !! "Title" = Some title →
  (parse_header lines).1 !! "Author" = Some author →
  (parse_header lines).1 !! "Date" = Some date →
  Str.strip title ≠ "" → Str.strip author ≠ "" → Str.strip date ≠ "" →
  validate_lines lines =
    [Msg.jira "nottickets"; Msg.upstream (Some "sure"); Msg.description]
  ∧ length (validate_lines lines) = 3.
Proof.
  intros Hj Hu Hd Ht Ha Hdt Ht' Ha' Hdt'.
  rewrite (validate_lines_checks _ _ _ Hj).
  assert (∀ s, s ≠ "" → Str.is_empty s = false) as Hne by (by intros []).
  rewrite check_required_nil; last first.
  { intros key Hkey. unfold REQUIRED_KEYS in Hkey.
    repeat (apply elem_of_cons in Hkey as [->|Hkey]);
      [..|by apply elem_of_nil in Hkey];
      eapply present_not_missing; eauto. }
  unfold check_jira, check_upstream, check_description.
  rewrite Hj, Hu, Hd. by vm_compute.
Qed.

Lemma three_bad_values_three_violations_witness :
  validate_lines (readlines Sample.three_bad) =
    [Msg.jira "nottickets"; Msg.upstream (Some "sure"); Msg.description]
  ∧ length (validate_lines (readlines Sample.three_bad)) = 3.
Proof.
  apply (three_bad_values_three_violations (readlines Sample.three_bad)
           "Fix the build" "A. Developer" "2024-01-01");
    evaluate.
Defined.

(** C3, as stated, fails: on a file with these six header lines the
    violations are three, not five. *)
Lemma three_bad_values_not_five :
  length (validate_lines (readlines Sample.three_bad)) = 3
  ∧ length (validate_lines (readlines Sample.three_bad)) ≠ 5.
Proof. by vm_compute. Qed.

(** The four checks on a mapping that has the six fields with valid
    values. *)
Lemma valid_fields_checks
    (flds : gmap string string) (jira title author date desc : string) :
  flds !! "JIRA" = Some jira →
  Re.jira_search jira = true →
  flds !! "Upstream" = Some "no" →
  flds !! "Title" = Some title →
  flds !! "Author" = Some author →
  flds !! "Date" = Some date →
  Str.strip title ≠ "" → Str.strip author ≠ "" → Str.strip date ≠ "" →
  flds !! "Description" = Some desc →
  20 ≤ Str.len (Str.strip desc) →
  check_required flds ++ check_jira flds ++ check_upstream flds
    ++ check_description flds = [].
Proof.
  intros Hj Hj' Hu Ht Ha Hdt Ht' Ha' Hdt' Hd Hd'.
  assert (∀ s, s ≠ "" → Str.is_empty s = false) as Hne by (by intros []).
  rewrite check_required_nil; last first.
  { intros key Hkey. unfold REQUIRED_KEYS in Hkey.
    repeat (apply elem_of_cons in Hkey as [->|Hkey]);
      [..|by apply elem_of_nil in Hkey];
      eapply present_not_missing; eauto.
    - by apply jira_search_not_blank.
    - apply len_not_blank. lia. }
  unfold check_jira, check_upstream, check_description.
  rewrite Hj, Hu, Hd. simpl. rewrite Hj'.
  destruct (Str.is_empty jira); simpl;
    by destruct (Nat.ltb_spec (Str.len (Str.strip desc)) 20); [lia|].
Qed.

(** On the parsed header: when the mapping that [parse_header] returns has
    the six required fields with valid values ([JIRA] with a ticket key in
    it, [Upstream] equal to [no], [Title], [Author] and [Date] not blank,
    [Description] of at least 20 characters once trimmed), [validate_lines]
    returns no violation, whatever follows the header. *)
Lemma valid_header_no_violation
    (lines : list string) (jira title author date desc : string) :
  (parse_header lines).1 !! "JIRA" = Some jira →
  Re.jira_search jira = true →
  (parse_header lines).1 !! "Upstream" = Some "no" →
  (parse_header lines).1 !! "Title" = Some title →
  (parse_header lines).1 !! "Author" = Some author →
  (parse_header lines).1 !! "Date" = Some date →
  Str.strip title ≠ "" → Str.strip author ≠ "" → Str.strip date ≠ "" →
  (parse_header lines).1 !! "Description" = Some desc →
  20 ≤ Str.len (Str.strip desc) →
  validate_lines lines = [].
Proof.
  intros Hj Hj' Hu Ht Ha Hdt Ht' Ha' Hdt' Hd Hd'.
  rewrite (validate_lines_checks _ _ _ Hj).
  by apply (valid_fields_checks _ jira title author date desc).
Qed.

Example all_valid_no_violation :
  validate_lines (readlines Sample.all_valid) = [].
Proof.
  apply (valid_header_no_violation (readlines Sample.all_valid)
           "ABC-123" "Fix the build" "A. Developer" "2024-01-01"
           "Carried until upstream takes it.");
    evaluate.
Qed.

(** When the [Description] line comes before other header lines, these
    continue the description and their fields are missing. *)
Example description_first_takes_the_rest :
  (parse_header (readlines Sample.three_bad_description_first)).1
    !! "Description"
  = Some ("short" +:+ Str.NL +:+ "Title: Fix the build" +:+ Str.NL
            +:+ "Author: A. Developer" +:+ Str.NL +:+ "Date: 2024-01-01")
  ∧ validate_lines (readlines Sample.three_bad_description_first) =
      [Msg.missing "Title"; Msg.missing "Author"; Msg.missing "Date";
       Msg.jira "nottickets"; Msg.upstream (Some "sure")].
Proof. split; reflexivity. Qed.

(** *** The six fields as header lines *)

Section Canonical.

Implicit Types (lines : list string) (st : state).

(** The body on the header line of a field other than [Description]. *)
Lemma body_field lines st key value :
  key ≠ "" → Str.all Char.is_letter key = true → key ≠ "Description" →
  Sample.plain value →
  body lines st (Sample.header_line key value) =
    Continue (State (<[key := value]> (fields st)) (desc_lines st) (S (i st))).
Proof.
  intros Hne Hkey Hdesc Hplain.
  destruct (header_line_read key value Hne Hkey Hplain) as (Hline & Hblank & Hre).
  unfold body. rewrite Hline, Hblank, Hre, (strip_letters key Hkey).
  apply String.eqb_neq in Hdesc. rewrite Hdesc.
  by rewrite (proj1 Hplain).
Qed.

(** The body on a [Description] line with a value, when a diff line comes
    next. *)
Lemma body_description_then_diff lines st value next :
  Sample.plain value → value ≠ "" →
  lines !! S (i st) = Some next → Re.diff_start next = true →
  body lines st (Sample.header_line "Description" value) =
    Continue
      (State
         (<["Description" := description_value (desc_lines st ++ [value])]>
            (fields st))
         (desc_lines st ++ [value]) (S (i st))).
Proof.
  intros Hplain Hne Hnext Hdiff.
  destruct (header_line_read "Description" value) as (Hline & Hblank & Hre);
    [done..|].
  unfold body. rewrite Hline, Hblank, Hre.
  change (String.eqb (Str.strip "Description") "Description") with true.
  cbv iota. destruct value as [|c value]; [done|]. simpl Str.is_empty.
  cbv iota. rewrite (drop_S _ _ _ Hnext). simpl. by rewrite Hdiff.
Qed.

(** The body on the diff line. *)
Lemma body_diff_line lines st :
  body lines st (Sample.diff_line +:+ Str.NL) = Break st.
Proof. reflexivity. Qed.

(** [parse_header] on the six header lines and the diff line: it stops at
    the diff line, with the six values as they stand in the lines. *)
Lemma canonical_parsed jira upstream title author date desc rest :
  Sample.plain jira → Sample.plain upstream → Sample.plain title →
  Sample.plain author → Sample.plain date → Sample.plain desc →
  desc ≠ "" →
  parse_header (Sample.canonical jira upstream title author date desc rest) =
    (<["Description" := desc]>
       (<["Date" := date]>
          (<["Author" := author]>
             (<["Title" := title]>
                (<["Upstream" := upstream]> (<["JIRA" := jira]> ∅))))),
     (Sample.diff_line +:+ Str.NL) :: rest).
Proof.
  intros Hj Hu Ht Ha Hdt Hd Hne.
  unfold parse_header, parse_header_loop, Sample.canonical, init.
  cbn [length app while_loop i lookup list_lookup].
  rewrite body_field by done. cbn [i lookup list_lookup].
  rewrite body_field by done. cbn [i lookup list_lookup].
  rewrite body_field by done. cbn [i lookup list_lookup].
  rewrite body_field by done. cbn [i lookup list_lookup].
  rewrite body_field by done. cbn [i lookup list_lookup].
  rewrite (body_description_then_diff _ _ desc (Sample.diff_line +:+ Str.NL))
    by done.
  cbn [i lookup list_lookup]. rewrite body_diff_line.
  cbn [fields desc_lines i drop app fst snd].
  unfold description_value. simpl. by rewrite !(proj1 Hd).
Qed.

(** A file made of the six header lines with valid plain values, then the
    line [diff --git a/x b/x], then anything, has no violation. *)
Lemma canonical_no_violation jira title author date desc rest :
  Sample.plain jira → Sample.plain title → Sample.plain author →
  Sample.plain date → Sample.plain desc →
  Re.jira_search jira = true →
  title ≠ "" → author ≠ "" → date ≠ "" → 20 ≤ Str.len desc →
  validate_lines (Sample.canonical jira "no" title author date desc rest) = [].
Proof.
  intros Hj Ht Ha Hdt Hd Hjira Ht' Ha' Hdt' Hlen.
  assert (desc ≠ "") as Hne by (intros ->; simpl in Hlen; lia).
  assert (Sample.plain "no") as Hno by done.
  pose proof (canonical_parsed jira "no" title author date desc rest
                Hj Hno Ht Ha Hdt Hd Hne) as Hparse.
  change (validate_lines (Sample.canonical jira "no" title author date desc rest))
    with (let flds :=
            (parse_header
               (Sample.canonical jira "no" title author date desc rest)).1 in
          check_required flds ++ check_jira flds ++ check_upstream flds
            ++ check_description flds).
  rewrite Hparse. simpl.
  apply (valid_fields_checks _ jira title author date desc);
    rewrite ?(proj1 Ht), ?(proj1 Ha), ?(proj1 Hdt), ?(proj1 Hd);
    try done.
Qed.

Example canonical_sample :
  validate_lines
    (Sample.canonical "ABC-123" "no" "Fix the build" "A. Developer"
       "2024-01-01" "Carried until upstream takes it." ["@@ -1 +1 @@"]) = [].
Proof. apply canonical_no_violation; evaluate || (split; evaluate). Qed.

End Canonical.

(** What [validate_lines] can return on a file with a parsed field. *)
Lemma elem_of_validate_lines (lines : list string) (key v m : string) :
  (parse_header lines).1 !! key = Some v →
  m ∈ validate_lines lines ↔
    m ∈ check_required (parse_header lines).1
    ∨ m ∈ check_jira (parse_header lines).1
    ∨ m ∈ check_upstream (parse_header lines).1
    ∨ m ∈ check_description (parse_header lines).1.
Proof.
  intros Hkey. rewrite (validate_lines_checks _ _ _ Hkey).
  by rewrite !elem_of_app.
Qed.

(** C6.  When the parsed header has a [Description], the violation on its
    length is among the returned ones exactly when the trimmed value has
    fewer than 20 characters: not at 20 characters, and at 19. *)
Theorem description_length_violation (lines : list string) (desc : string) :
  (parse_header lines).1 !! "Description" = Some desc →
  (Msg.description ∈ validate_lines lines ↔ Str.len (Str.strip desc) < 20)
  ∧ (Str.len (Str.strip desc) = 20 → Msg.description ∉ validate_lines lines)
  ∧ (Str.len (Str.strip desc) = 19 → Msg.description ∈ validate_lines lines).
Proof.
  intros Hd.
  assert (Msg.description ∈ validate_lines lines
          ↔ Str.len (Str.strip desc) < 20) as Hiff.
  { rewrite (elem_of_validate_lines _ _ _ _ Hd). split.
    - intros [[k Hk]%elem_of_check_required
             |[[v Hv]%elem_of_check_jira
             |[[Hu _]%elem_of_check_upstream
             |[_ Hlen]%elem_of_check_description]]].
      + discriminate Hk.
      + discriminate Hv.
      + discriminate Hu.
      + by rewrite Hd in Hlen.
    - intros Hlen. do 3 right. apply elem_of_check_description.
      by rewrite Hd. }
  split; [done|]. rewrite Hiff. lia.
Qed.

Lemma description_length_violation_witness :
  (Msg.description ∈ validate_lines (readlines Sample.description_20)
   ↔ Str.len (Str.strip "12345678901234567890") < 20)
  ∧ (Str.len (Str.strip "12345678901234567890") = 20 →
     Msg.description ∉ validate_lines (readlines Sample.description_20))
  ∧ (Str.len (Str.strip "12345678901234567890") = 19 →
     Msg.description ∈ validate_lines (readlines Sample.description_20)).
Proof.
  apply (description_length_violation (readlines Sample.description_20)
           "12345678901234567890").
  reflexivity.
Defined.

(** C7.  When the parsed header has an [Upstream], the violation on its
    value, which reads [Upstream field must be 'yes' or 'no', got: ] and
    then the value in quotes, as the header has it and not in lower case,
    is among the returned ones exactly when the value in lower case is
    neither [yes] nor [no]; no other message on [Upstream]'s value is
    returned; [YES] gives no such message and [maybe] gives the one that
    quotes [maybe]. *)
Theorem upstream_value_violation (lines : list string) (upstream : string) :
  (parse_header lines).1 !! "Upstream" = Some upstream →
  ("Upstream field must be 'yes' or 'no', got: '" +:+ upstream +:+ "'"
     ∈ validate_lines lines
   ↔ Str.lower upstream ≠ "yes" ∧ Str.lower upstream ≠ "no")
  ∧ (∀ m, m ∈ validate_lines lines →
          Str.startswith "Upstream field must be" m = true →
          m = "Upstream field must be 'yes' or 'no', got: '"
                +:+ upstream +:+ "'")
  ∧ (upstream = "YES" →
     ∀ m, m ∈ validate_lines lines →
          Str.startswith "Upstream field must be" m = false)
  ∧ (upstream = "maybe" →
     "Upstream field must be 'yes' or 'no', got: 'maybe'"
       ∈ validate_lines lines).
Proof.
  intros Hu.
  assert (∀ m, m ∈ validate_lines lines →
               Str.startswith "Upstream field must be" m = true →
               m = "Upstream field must be 'yes' or 'no', got: '"
                     +:+ upstream +:+ "'"
               ∧ Str.lower upstream ≠ "yes" ∧ Str.lower upstream ≠ "no")
    as Hshape.
  { intros m Hm. apply (elem_of_validate_lines _ _ _ _ Hu) in Hm.
    destruct Hm as [[k ->]%elem_of_check_required
                   |[[v ->]%elem_of_check_jira
                   |[Hm%elem_of_check_upstream
                   |[-> _]%elem_of_check_description]]]; try done.
    by rewrite Hu in Hm. }
  assert ("Upstream field must be 'yes' or 'no', got: '" +:+ upstream +:+ "'"
            ∈ validate_lines lines
          ↔ Str.lower upstream ≠ "yes" ∧ Str.lower upstream ≠ "no") as Hiff.
  { split.
    - intros Hm. by apply Hshape in Hm as [_ ?].
    - intros [Hyes Hno]. apply (elem_of_validate_lines _ _ _ _ Hu).
      do 2 right. left. apply elem_of_check_upstream. by rewrite Hu. }
  split; [done|]. split; [|split].
  - intros m Hm Hpre. by apply Hshape in Hm as [-> _].
  - intros -> m Hm.
    destruct (Str.startswith "Upstream field must be" m) eqn:Hpre; [|done].
    by apply Hshape in Hm as (_ & Hyes & _).
  - intros ->. by apply Hiff.
Qed.

Lemma upstream_value_violation_witness :
  "Upstream field must be 'yes' or 'no', got: 'maybe'"
    ∈ validate_lines (readlines Sample.upstream_maybe)
  ∧ (∀ m, m ∈ validate_lines (readlines Sample.upstream_maybe) →
          Str.startswith "Upstream field must be" m = true →
          m = "Upstream field must be 'yes' or 'no', got: 'maybe'")
  ∧ (∀ m, m ∈ validate_lines (readlines Sample.upstream_YES) →
          Str.startswith "Upstream field must be" m = false)
  ∧ "Upstream field must be 'yes' or 'no', got: 'YES'"
      ∉ validate_lines (readlines Sample.upstream_YES).
Proof.
  destruct (upstream_value_violation (readlines Sample.upstream_maybe)
              "maybe" eq_refl) as (_ & Hquote & _ & Hmaybe).
  destruct (upstream_value_violation (readlines Sample.upstream_YES)
              "YES" eq_refl) as (Hiff & _ & HYES & _).
  split; [exact (Hmaybe eq_refl)|]. split; [exact Hquote|].
  split; [exact (HYES eq_refl)|].
  intros Hin. apply Hiff in Hin as [Hyes _]. apply Hyes. reflexivity.
Defined.

(** ** The run over the files (C2, C9) *)

Section Run.

Variable w : world.

(** The loop over the files returns [False] exactly when it was entered
    with [False] and went through files without violation only. *)
Lemma for_files_false files overall_failed :
  (for_files w files overall_failed).2 = Returned false
  ↔ overall_failed = false
    ∧ Forall (fun f => validate_patch_file w f = Returned []) files.
Proof.
  revert overall_failed.
  induction files as [|f files IH]; intros overall_failed.
  - simpl. split; [intros [= ->]; by split | by intros [-> _]].
  - rewrite Forall_cons. cbn [for_files].
    destruct (validate_patch_file w f) as [[|e errs]|e] eqn:Hf.
    + specialize (IH overall_failed).
      destruct (for_files w files overall_failed) as [out r]. simpl in *.
      rewrite IH. tauto.
    + specialize (IH true).
      destruct (for_files w files true) as [out r]. simpl in *.
      rewrite IH. split; [by intros [[=] _] | by intros [_ [[=] _]]].
    + simpl. split; [done | by intros [_ [[=] _]]].
Qed.

Lemma main_files_status files :
  (exit_status (main_files w files).2 = 0
   ↔ files ≠ []
     ∧ Forall (fun f => validate_patch_file w f = Returned []) files)
  ∧ (exit_status (main_files w files).2 = 0
     ∨ exit_status (main_files w files).2 = 1).
Proof.
  destruct files as [|f files];
    [split; [split; [done | by intros [? _]] | by right]|].
  unfold main_files.
  pose proof (for_files_false (f :: files) false) as Hfalse.
  destruct (for_files w (f :: files) false) as [out [[]|e]]; simpl in *.
  - split; [|by right]. split; [done | intros [_ H]].
    discriminate (proj2 Hfalse (conj eq_refl H)).
  - split; [|by left]. split; [intros _ | done].
    split; [done|]. by apply Hfalse.
  - split; [|by right]. split; [done | intros [_ H]].
    discriminate (proj2 Hfalse (conj eq_refl H)).
Qed.

(** [main] is [main_files] on the input files, and the diagnostic with
    status 1 when there are none to look for. *)
Lemma main_input_files argv :
  main w argv =
    match input_files w argv with
    | Some files => main_files w files
    | None =>
        ([Diagnostic "No patches/ folder found and no paths given."],
         Returned 1)
    end.
Proof.
  unfold main, input_files.
  destruct (1 <? length argv); [done|]. by destruct (patches_exists w).
Qed.

(** The loop over the files stops at the first one that cannot be
    opened: it has printed the progress line of that file, and the
    exception leaves it. *)
Lemma for_files_raise before f after overall_failed :
  Forall (fun g => is_Some (file_text w g)) before →
  file_text w f = None →
  for_files w (before ++ f :: after) overall_failed =
    ((for_files w before overall_failed).1 ++ [Validating f],
     Raised (OSError f)).
Proof.
  intros Hbefore Hf. revert overall_failed.
  induction Hbefore as [|g before [text Hg] _ IH]; intros overall_failed; simpl.
  - unfold validate_patch_file. by rewrite Hf.
  - unfold validate_patch_file. rewrite Hg.
    destruct (validate_lines (readlines text)) as [|e errs].
    + rewrite IH. by destruct (for_files w before overall_failed).
    + rewrite IH. by destruct (for_files w before true).
Qed.

End Run.

(** C9.  The exit status of a run is 0 exactly when there are input files
    and [validate_patch_file] returns the empty list for each of them; it
    is 1 otherwise: when a file has a violation, when no path is given and
    [patches] does not exist, and when no path is given and the scan finds
    no [.patch] or [.diff] file. *)
Theorem exit_status_zero_iff_all_clean (w : world) (argv : list string) :
  (exit_status (main w argv).2 = 0
   ↔ ∃ files, input_files w argv = Some files ∧ files ≠ []
              ∧ Forall (fun f => validate_patch_file w f = Returned []) files)
  ∧ (exit_status (main w argv).2 = 0 ∨ exit_status (main w argv).2 = 1)
  ∧ (∀ files f e errs,
       input_files w argv = Some files → f ∈ files →
       validate_patch_file w f = Returned (e :: errs) →
       exit_status (main w argv).2 = 1)
  ∧ (length argv ≤ 1 → patches_exists w = false →
     exit_status (main w argv).2 = 1)
  ∧ (length argv ≤ 1 → glob_patch w ++ glob_diff w = [] →
     exit_status (main w argv).2 = 1).
Proof.
  assert (exit_status (main w argv).2 = 0
          ↔ ∃ files, input_files w argv = Some files ∧ files ≠ []
              ∧ Forall (fun f => validate_patch_file w f = Returned []) files)
    as Hzero.
  { rewrite main_input_files.
    destruct (input_files w argv) as [files|].
    - rewrite (proj1 (main_files_status w files)). split.
      + intros [? ?]. by exists files.
      + by intros (? & [= <-] & ? & ?).
    - split; [done | by intros (? & [=] & _)]. }
  assert (exit_status (main w argv).2 = 0 ∨ exit_status (main w argv).2 = 1)
    as Hbit.
  { rewrite main_input_files. destruct (input_files w argv) as [files|].
    - apply main_files_status.
    - by right. }
  assert (∀ P : Prop, (exit_status (main w argv).2 = 0 → P → False) →
                      P → exit_status (main w argv).2 = 1) as Hone.
  { intros P HP HPt. destruct Hbit as [H0|H1]; [by destruct (HP H0 HPt) | done]. }
  split; [done|]. split; [done|]. split; [|split].
  - intros files f e errs Hfiles Hf Hviol.
    apply (Hone True); [|done]. intros H0 _.
    apply Hzero in H0 as (files' & Hfiles' & _ & Hclean).
    rewrite Hfiles in Hfiles'. injection Hfiles' as <-.
    rewrite Forall_forall in Hclean. specialize (Hclean f Hf). congruence.
  - intros Hargv Hno. apply (Hone True); [|done]. intros H0 _.
    apply Hzero in H0 as (files & Hfiles & _). unfold input_files in Hfiles.
    destruct (Nat.ltb_spec 1 (length argv)); [lia|]. by rewrite Hno in Hfiles.
  - intros Hargv Hno. apply (Hone True); [|done]. intros H0 _.
    apply Hzero in H0 as (files & Hfiles & Hne & _). unfold input_files in Hfiles.
    destruct (Nat.ltb_spec 1 (length argv)); [lia|].
    destruct (patches_exists w); simpl in Hfiles; [|done]. congruence.
Qed.

Lemma exit_status_zero_iff_all_clean_witness :
  exit_status (main Sample.w [Sample.prog; "good.patch"; "bad.patch"]).2 = 1
  ∧ exit_status (main Sample.w [Sample.prog]).2 = 1
  ∧ exit_status (main Sample.w_scan [Sample.prog]).2 = 0.
Proof.
  pose proof (exit_status_zero_iff_all_clean Sample.w
                [Sample.prog; "good.patch"; "bad.patch"])
    as (_ & _ & Hviol & _).
  pose proof (exit_status_zero_iff_all_clean Sample.w [Sample.prog])
    as (_ & _ & _ & Hnodir & _).
  pose proof (exit_status_zero_iff_all_clean Sample.w_scan [Sample.prog])
    as (Hzero & _).
  split; [|split].
  - apply (Hviol ["good.patch"; "bad.patch"] "bad.patch"
             (Msg.jira "nottickets")
             [Msg.upstream (Some "sure"); Msg.description]).
    + reflexivity.
    + apply list_elem_of_further, list_elem_of_here.
    + reflexivity.
  - apply Hnodir; [simpl; lia | reflexivity].
  - apply Hzero. exists ["good.patch"]. split; [reflexivity|].
    split; [discriminate|]. apply Forall_cons. split; [reflexivity|].
    apply Forall_nil_2.
Defined.

(** C2, as the code has it.  There is no [try] in the script.  When a given
    path cannot be opened, [validate_patch_file] raises and returns no list
    of violations; the exception leaves [main] after the progress line of
    that file, the exit status is 1, and the files after it are not looked
    at: the run is the same as if they had not been given.  A file that
    opens always gets its list of violations, since with
    [errors='replace'] decoding cannot fail. *)
Theorem unopenable_file_aborts_run
    (w : world) (prog f : string) (before after : list string) :
  Forall (fun g => is_Some (file_text w g)) before →
  file_text w f = None →
  validate_patch_file w f = Raised (OSError f)
  ∧ main w (prog :: before ++ f :: after) =
      ((for_files w before false).1 ++ [Validating f], Raised (OSError f))
  ∧ main w (prog :: before ++ f :: after) = main w (prog :: before ++ [f])
  ∧ exit_status (main w (prog :: before ++ f :: after)).2 = 1
  ∧ (∀ g text, file_text w g = Some text →
       validate_patch_file w g = Returned (validate_lines (readlines text))).
Proof.
  intros Hbefore Hf.
  assert (∀ rest, main w (prog :: before ++ f :: rest) =
            ((for_files w before false).1 ++ [Validating f],
             Raised (OSError f))) as Hmain.
  { intros rest. unfold main. simpl length.
    rewrite length_app. simpl length.
    destruct (Nat.ltb_spec 1 (S (length before + S (length rest)))); [|lia].
    change (drop 1 (prog :: before ++ f :: rest)) with (before ++ f :: rest).
    unfold main_files.
    rewrite (for_files_raise w before f rest false Hbefore Hf).
    by destruct (before ++ f :: rest) eqn:Heq;
      [destruct before; discriminate Heq|]. }
  split; [unfold validate_patch_file; by rewrite Hf|].
  split; [apply Hmain|]. split; [by rewrite !Hmain|].
  split; [by rewrite Hmain|].
  intros g text Hg. unfold validate_patch_file. by rewrite Hg.
Qed.

Lemma unopenable_file_aborts_run_witness :
  validate_patch_file Sample.w "nope.patch" = Raised (OSError "nope.patch")
  ∧ main Sample.w (Sample.prog :: ["good.patch"] ++ "nope.patch" :: ["bad.patch"]) =
      ((for_files Sample.w ["good.patch"] false).1 ++ [Validating "nope.patch"],
       Raised (OSError "nope.patch"))
  ∧ main Sample.w (Sample.prog :: ["good.patch"] ++ "nope.patch" :: ["bad.patch"]) =
      main Sample.w (Sample.prog :: ["good.patch"] ++ ["nope.patch"])
  ∧ exit_status
      (main Sample.w (Sample.prog :: ["good.patch"] ++ "nope.patch" :: ["bad.patch"])).2 = 1
  ∧ (∀ g text, file_text Sample.w g = Some text →
       validate_patch_file Sample.w g = Returned (validate_lines (readlines text))).
Proof.
  apply (unopenable_file_aborts_run Sample.w Sample.prog "nope.patch"
           ["good.patch"] ["bad.patch"]).
  - apply Forall_cons. split; [by eexists | apply Forall_nil_2].
  - reflexivity.
Defined.

(** C2, as stated, fails: for a path that cannot be opened
    [validate_patch_file] returns no list of violations, a run over that
    path and a good file ends in the exception, and the good file is not
    validated. *)
Lemma unopenable_file_not_a_violation :
  (∀ errs, validate_patch_file Sample.w "nope.patch" ≠ Returned errs)
  ∧ main Sample.w [Sample.prog; "nope.patch"; "good.patch"] =
      ([Validating "nope.patch"], Raised (OSError "nope.patch"))
  ∧ Validating "good.patch"
      ∉ (main Sample.w [Sample.prog; "nope.patch"; "good.patch"]).1.
Proof.
  split; [done|]. split; [reflexivity|].
  simpl. intros [[=]|H%elem_of_nil]%elem_of_cons. done.
Qed.

(** ** The accumulator of the description (C10) *)

Section Description.

Implicit Types (lines : list string) (st : state).

(** What the body does on a [Description] line: it appends the value, when
    there is one, and the lines that continue it to what [desc_lines]
    holds, and stores the value of the whole. *)
Lemma body_description lines st raw value :
  description_line raw = Some value →
  let desc :=
    if Str.is_empty value then desc_lines st else desc_lines st ++ [value] in
  let collected := collect (drop (S (i st)) lines) desc (S (i st)) in
  body lines st raw =
    Continue
      (State (<["Description" := description_value collected.1]> (fields st))
         collected.1 collected.2).
Proof.
  unfold description_line, body.
  destruct (Str.is_empty (Str.strip (Str.rstrip_nl raw))); [done|].
  destruct (Re.header (Str.rstrip_nl raw)) as [[key v]|]; [|done].
  destruct (String.eqb (Str.strip key) "Description"); [|done].
  intros [= ->]. simpl. by destruct (collect _ _ _).
Qed.

Lemma collect_app from_j desc j :
  (collect from_j desc j).1 = desc ++ (collect from_j [] j).1.
Proof.
  revert desc j. induction from_j as [|ln rest IH]; intros desc j; simpl.
  - by rewrite app_nil_r.
  - destruct (Re.diff_start ln || Str.is_empty (Str.strip ln)); simpl.
    + by rewrite app_nil_r.
    + rewrite IH, (IH [_]). by rewrite <-app_assoc.
Qed.

Lemma body_description_adds lines st raw value st' :
  description_line raw = Some value →
  body lines st raw = Continue st' →
  desc_lines st' = desc_lines st ++ collected lines st value
  ∧ fields st' !! "Description" = Some (description_value (desc_lines st')).
Proof.
  intros Hdesc. rewrite (body_description lines st raw value Hdesc).
  intros [= <-]. simpl. rewrite lookup_insert_eq. split; [|done].
  unfold collected. rewrite collect_app.
  destruct (Str.is_empty value); simpl; [done|].
  by rewrite (collect_app _ [value]), <-app_assoc.
Qed.

(** No run of the body takes anything out of [desc_lines]. *)
Lemma steps_desc_lines lines st st' :
  steps lines st st' → desc_lines st `prefix_of` desc_lines st'.
Proof.
  induction 1 as [st|st raw st' st'' _ Hbody _ IH]; [done|].
  etrans; [|exact IH]. apply (body_desc_lines lines st raw). by left.
Qed.

(** The loop goes through [steps] to the state in which it ends, or to
    the one whose run of the body ends in [break]. *)
Lemma while_loop_steps fuel lines st st' :
  while_loop fuel lines st = Some st' →
  ∃ st_last,
    steps lines st st_last
    ∧ ((st' = st_last ∧ lines !! i st_last = None)
       ∨ ∃ raw, lines !! i st_last = Some raw
                ∧ body lines st_last raw = Break st').
Proof.
  revert st. induction fuel as [|fuel IH]; intros st; [done|]. simpl.
  destruct (lines !! i st) as [raw|] eqn:Hraw.
  - destruct (body lines st raw) as [st1|st1] eqn:Hbody.
    + intros [= <-]. exists st. split; [constructor|]. right. by exists raw.
    + intros (st_last & Hsteps & Hlast)%IH. exists st_last.
      split; [by econstructor | done].
  - intros [= <-]. exists st. split; [constructor|]. by left.
Qed.

(** Through the whole loop the value stored for [Description], once there
    is one, is the value of all that [desc_lines] holds. *)
Lemma body_description_value lines st raw st' :
  body lines st raw = Continue st' ∨ body lines st raw = Break st' →
  (fields st !! "Description" = None
   ∨ fields st !! "Description" = Some (description_value (desc_lines st))) →
  fields st' !! "Description" = None
  ∨ fields st' !! "Description" = Some (description_value (desc_lines st')).
Proof.
  unfold body.
  destruct (Str.is_empty (Str.strip (Str.rstrip_nl raw))).
  - destruct (lines !! S (i st)) as [next|].
    + destruct (Re.diff_start next); intros [[= <-]|[= <-]]; done.
    + intros [[= <-]|[=]]; done.
  - destruct (Re.header (Str.rstrip_nl raw)) as [[key value]|].
    + destruct (String.eqb_spec (Str.strip key) "Description") as [Hkey|Hkey].
      * destruct (collect _ _ _) as [desc' j].
        intros [[= <-]|[=]] _; simpl. right. by rewrite lookup_insert_eq.
      * intros [[= <-]|[=]]; simpl. by rewrite lookup_insert_ne.
    + destruct (Re.diff_start (Str.rstrip_nl raw));
        intros [[= <-]|[= <-]]; done.
Qed.

Lemma parse_header_description_value lines st :
  parse_header_loop lines = Some st →
  fields st !! "Description" = None
  ∨ fields st !! "Description" = Some (description_value (desc_lines st)).
Proof.
  unfold parse_header_loop. intros Hloop.
  assert (fields init !! "Description" = None
          ∨ fields init !! "Description"
            = Some (description_value (desc_lines init))) as Hinit
    by (by left).
  revert Hloop Hinit. generalize init (S (length lines)).
  intros st0 fuel. revert st0.
  induction fuel as [|fuel IH]; intros st0; [done|]. simpl.
  destruct (lines !! i st0) as [raw|]; [|by intros [= <-]].
  destruct (body lines st0 raw) as [st1|st1] eqn:Hbody.
  - intros [= <-]. apply (body_description_value lines st0 raw). by right.
  - intros Hloop Hst0. apply (IH st1 Hloop).
    apply (body_description_value lines st0 raw); [by left | done].
Qed.

End Description.

(** C10.  [desc_lines] is set once, before the loop, and no run of the body
    empties it.  When the body has run on a [Description] line and later
    runs on another one, [desc_lines] then holds what it held before the
    first, what the first occurrence added (its value and the lines that
    continue it), what was added in between, and what the later occurrence
    adds; the value stored for [Description] is the one of that whole list,
    the lines trimmed and joined by line feeds, not the text of the later
    occurrence alone. *)
Theorem description_accumulator_is_shared
    (lines : list string) (st1 st1' st2 st2' : state)
    (raw1 raw2 value1 value2 : string) :
  lines !! i st1 = Some raw1 →
  description_line raw1 = Some value1 →
  body lines st1 raw1 = Continue st1' →
  steps lines st1' st2 →
  lines !! i st2 = Some raw2 →
  description_line raw2 = Some value2 →
  body lines st2 raw2 = Continue st2' →
  ∃ between,
    desc_lines st2' =
      desc_lines st1 ++ collected lines st1 value1 ++ between
        ++ collected lines st2 value2
    ∧ fields st2' !! "Description"
      = Some (Str.strip
                (Str.join Str.NL
                   (Str.strip <$>
                      desc_lines st1 ++ collected lines st1 value1 ++ between
                        ++ collected lines st2 value2))).
Proof.
  intros _ Hdesc1 Hbody1 Hsteps _ Hdesc2 Hbody2.
  apply steps_desc_lines in Hsteps as [between Hbetween].
  destruct (body_description_adds _ _ _ _ _ Hdesc1 Hbody1) as [Hst1' _].
  destruct (body_description_adds _ _ _ _ _ Hdesc2 Hbody2) as [Hst2' Hvalue].
  exists between. rewrite Hvalue, Hst2', Hbetween, Hst1'.
  by rewrite <-!app_assoc.
Qed.

Lemma description_accumulator_is_shared_witness :
  ∃ between,
    desc_lines Sample.second_done =
      desc_lines init ++ collected Sample.two_descriptions init "first"
        ++ between
        ++ collected Sample.two_descriptions Sample.at_second "second"
    ∧ fields Sample.second_done !! "Description"
      = Some (Str.strip
                (Str.join Str.NL
                   (Str.strip <$>
                      desc_lines init
                        ++ collected Sample.two_descriptions init "first"
                        ++ between
                        ++ collected Sample.two_descriptions Sample.at_second
                             "second"))).
Proof.
  apply (description_accumulator_is_shared Sample.two_descriptions
           init Sample.first_done Sample.at_second Sample.second_done
           ("Description: first" +:+ Str.NL) ("Description: second" +:+ Str.NL)
           "first" "second").
  - reflexivity.
  - reflexivity.
  - reflexivity.
  - apply (steps_body _ Sample.first_done Str.NL Sample.at_second);
      [reflexivity | reflexivity | apply steps_refl].
  - reflexivity.
  - reflexivity.
  - reflexivity.
Defined.

(** The two [Description] lines of the sample give one value, in which the
    text of the first comes before the text of the second. *)
Example two_descriptions_value :
  (parse_header Sample.two_descriptions).1 !! "Description"
  = Some ("first" +:+ Str.NL +:+ "goes on" +:+ Str.NL +:+ "second").
Proof. reflexivity. Qed.

(** * Further properties *)

(** ** Diff lines and the end of the loop *)

Section Boundary.

Implicit Types (lines : list string) (st : state) (s raw : string).

(** [rstrip] keeps a start that holds no character to remove. *)
Lemma startswith_rstrip_by p m s :
  Str.all (fun c => negb (p c)) m = true →
  Str.startswith m (Str.rstrip_by p s) = Str.startswith m s.
Proof.
  unfold Str.startswith. revert s. induction m as [|c m IH]; intros s Hm.
  - by destruct s, (Str.rstrip_by p _).
  - simpl in Hm. apply andb_true_iff in Hm as [Hc Hm].
    apply negb_true_iff in Hc.
    destruct s as [|d s]; [done|]. simpl.
    destruct (Str.is_empty (Str.rstrip_by p s) && p d) eqn:Hcut; simpl.
    + apply andb_true_iff in Hcut as [_ Hd].
      destruct (ascii_dec c d) as [->|_]; [congruence | done].
    + destruct (ascii_dec c d); [by apply IH | done].
Qed.

Lemma diff_start_rstrip_nl raw :
  Re.diff_start (Str.rstrip_nl raw) = Re.diff_start raw.
Proof.
  unfold Re.diff_start, Str.rstrip_nl.
  by rewrite !startswith_rstrip_by by done.
Qed.

(** A diff line is not blank and is not a header line. *)
Lemma diff_start_line s :
  Re.diff_start s = true →
  Str.is_empty (Str.strip s) = false ∧ Re.header s = None.
Proof.
  assert (∀ c t, Char.is_space c = false →
                 Str.is_empty (Str.strip (String c t)) = false) as Hhead.
  { intros c t Hc. unfold Str.strip, Str.rstrip. simpl. rewrite Hc. simpl.
    by rewrite Hc, andb_false_r. }
  assert (∀ c t, Char.is_letter c = false → Re.header (String c t) = None)
    as Hnone.
  { intros c t Hc. unfold Re.header. simpl. by rewrite Hc. }
  intros (marker & rest & -> & Hm)%diff_start_spec.
  repeat (apply elem_of_cons in Hm as [->|Hm]);
    [..|by apply elem_of_nil in Hm];
    (split; [by apply Hhead|]); try by apply Hnone.
  unfold Re.header.
  change ("diff " +:+ rest) with ("diff" +:+ String " " rest).
  by rewrite (span_all Char.is_letter "diff") by done.
Qed.

(** On a diff line the body ends in [break] and changes nothing. *)
Lemma body_diff lines st raw :
  Re.diff_start raw = true → body lines st raw = Break st.
Proof.
  intros Hraw. rewrite <-diff_start_rstrip_nl in Hraw.
  destruct (diff_start_line _ Hraw) as [Hblank Hheader].
  unfold body. by rewrite Hblank, Hheader, Hraw.
Qed.

(** A line on which the body does not end in [break] is no diff line. *)
Lemma body_continue_no_diff lines st raw st' :
  body lines st raw = Continue st' → Re.diff_start raw = false.
Proof.
  destruct (Re.diff_start raw) eqn:Hraw; [|done].
  by rewrite (body_diff lines st raw Hraw).
Qed.

(** The inner loop passes no diff line. *)
Lemma collect_no_diff from_j desc j desc' j' k ln :
  collect from_j desc j = (desc', j') →
  from_j !! k = Some ln → j + k < j' →
  Re.diff_start ln = false.
Proof.
  revert desc j k. induction from_j as [|l rest IH]; intros desc j k; [done|].
  simpl. destruct (Re.diff_start l) eqn:Hl; simpl.
  - intros [= <- <-] _ ?. lia.
  - destruct (Str.is_empty (Str.strip l)).
    + intros [= <- <-] _ ?. lia.
    + intros Hc. destruct k as [|k]; simpl.
      * by intros [= <-].
      * intros Hk ?. apply (IH _ _ k Hc Hk). lia.
Qed.

(** No run of the body moves [i] beyond a diff line. *)
Lemma body_no_diff_before lines st raw st' :
  lines !! i st = Some raw →
  body lines st raw = Continue st' ∨ body lines st raw = Break st' →
  ∀ k ln, i st ≤ k < i st' → lines !! k = Some ln → Re.diff_start ln = false.
Proof.
  intros Hraw Hbody k ln Hk Hln.
  assert (k = i st → Re.diff_start ln = false) as Hfirst.
  { intros ->. rewrite Hraw in Hln. injection Hln as <-.
    destruct Hbody as [Hbody|Hbody].
    - by apply body_continue_no_diff in Hbody.
    - destruct (Re.diff_start raw) eqn:Hd; [|done].
      rewrite (body_diff _ _ _ Hd) in Hbody. injection Hbody as <-. lia. }
  destruct (decide (k = i st)) as [->|Hne]; [by apply Hfirst|].
  revert Hbody. unfold body.
  destruct (Str.is_empty (Str.strip (Str.rstrip_nl raw))).
  - destruct (lines !! S (i st)) as [next|].
    + destruct (Re.diff_start next); intros [[= <-]|[= <-]]; simpl in *; lia.
    + intros [[= <-]|[=]]; simpl in *; lia.
  - destruct (Re.header (Str.rstrip_nl raw)) as [[key value]|].
    + destruct (String.eqb (Str.strip key) "Description").
      * destruct (collect _ _ _) as [desc' j] eqn:Hc.
        intros [[= <-]|[=]]. simpl in *.
        apply (collect_no_diff _ _ _ _ _ (k - S (i st)) ln Hc); [|lia].
        rewrite lookup_drop. by replace (S (i st) + (k - S (i st))) with k by lia.
      * intros [[= <-]|[=]]; simpl in *; lia.
    + destruct (Re.diff_start (Str.rstrip_nl raw));
        intros [[= <-]|[= <-]]; simpl in *; lia.
Qed.

(** A run of the body that ends in [break] stops at a diff line. *)
Lemma body_break_at_diff lines st raw st' :
  lines !! i st = Some raw →
  body lines st raw = Break st' →
  ∃ ln, lines !! i st' = Some ln ∧ Re.diff_start ln = true.
Proof.
  intros Hraw. unfold body.
  destruct (Str.is_empty (Str.strip (Str.rstrip_nl raw))).
  - destruct (lines !! S (i st)) as [next|] eqn:Hnext; [|done].
    destruct (Re.diff_start next) eqn:Hd; [|done].
    intros [= <-]. by exists next.
  - destruct (Re.header (Str.rstrip_nl raw)) as [[key value]|].
    + destruct (String.eqb (Str.strip key) "Description"); [|done].
      by destruct (collect _ _ _).
    + destruct (Re.diff_start (Str.rstrip_nl raw)) eqn:Hd; [|done].
      intros [= <-]. exists raw. by rewrite <-diff_start_rstrip_nl.
Qed.

(** [first_diff] is the one index before which no line starts a diff and
    at which a line, when there is one, does. *)
Lemma first_diff_unique lines n :
  n ≤ length lines →
  (∀ k ln, k < n → lines !! k = Some ln → Re.diff_start ln = false) →
  (∀ ln, lines !! n = Some ln → Re.diff_start ln = true) →
  first_diff lines = n.
Proof.
  revert n. induction lines as [|l lines IH]; intros n Hn Hbefore Hat.
  - simpl in Hn. simpl. lia.
  - simpl. destruct (Re.diff_start l) eqn:Hl.
    + destruct n as [|n]; [done|].
      by rewrite (Hbefore 0 l) in Hl by (done || lia).
    + destruct n as [|n]; [by rewrite (Hat l) in Hl|].
      f_equal. apply IH.
      * simpl in Hn. lia.
      * intros k ln Hk. apply (Hbefore (S k)). lia.
      * apply Hat.
Qed.

Lemma while_loop_first_diff fuel lines st st' :
  while_loop fuel lines st = Some st' →
  i st ≤ length lines →
  (∀ k ln, k < i st → lines !! k = Some ln → Re.diff_start ln = false) →
  first_diff lines = i st'.
Proof.
  revert st. induction fuel as [|fuel IH]; intros st; [done|]. simpl.
  destruct (lines !! i st) as [raw|] eqn:Hraw.
  - intros Hloop Hi Hbefore.
    assert (∀ st1, body lines st raw = Continue st1
                   ∨ body lines st raw = Break st1 →
              ∀ k ln, k < i st1 → lines !! k = Some ln →
                      Re.diff_start ln = false) as Hnext.
    { intros st1 Hbody k ln Hk Hln.
      destruct (decide (k < i st)); [by apply (Hbefore k)|].
      apply (body_no_diff_before _ _ _ _ Hraw Hbody k ln); [lia | done]. }
    destruct (body lines st raw) as [st1|st1] eqn:Hbody.
    + injection Hloop as <-.
      destruct (body_break_at_diff _ _ _ _ Hraw Hbody) as (ln & Hln & Hd).
      apply first_diff_unique.
      * apply lookup_lt_Some in Hln. lia.
      * apply Hnext. by right.
      * intros ln'. rewrite Hln. by intros [= <-].
    + apply (IH st1 Hloop).
      * pose proof (body_continue_i _ _ _ _ Hraw Hbody). lia.
      * apply Hnext. by left.
  - intros [= <-] Hi Hbefore. apply lookup_ge_None_1 in Hraw.
    apply first_diff_unique; [lia | done |].
    intros ln Hln. apply lookup_lt_Some in Hln. lia.
Qed.

End Boundary.

(** X1.  The loop of [parse_header] ends on every input.  A run of its body
    that does not [break] moves [i] forward by at least one line and not
    beyond the end, also when the [Description] branch sets [i] to [j] and
    goes on; so from any state the loop ends within
    [len(lines) - i + 1] runs, at an index that is not before the one it
    started at. *)
Theorem parse_header_loop_terminates
    (lines : list string) (st : state) (fuel : nat) :
  length lines - i st < fuel →
  (∃ st', while_loop fuel lines st = Some st'
          ∧ (i st ≤ length lines → i st ≤ i st' ≤ length lines))
  ∧ (∀ raw st', lines !! i st = Some raw →
                body lines st raw = Continue st' →
                i st < i st' ≤ length lines).
Proof.
  intros Hfuel. split.
  - destruct (while_loop_ends fuel lines st Hfuel) as [st' Hst'].
    exists st'. split; [done|]. by apply (while_loop_i fuel).
  - apply body_continue_i.
Qed.

Lemma parse_header_loop_terminates_witness :
  (∃ st', while_loop 6 Sample.two_descriptions init = Some st'
          ∧ (i init ≤ length Sample.two_descriptions →
             i init ≤ i st' ≤ length Sample.two_descriptions))
  ∧ (∀ raw st', Sample.two_descriptions !! i init = Some raw →
                body Sample.two_descriptions init raw = Continue st' →
                i init < i st' ≤ length Sample.two_descriptions).
Proof.
  apply (parse_header_loop_terminates Sample.two_descriptions init 6).
  vm_compute. lia.
Defined.

(** X2.  [parse_header] stops at the first line that starts a diff: the
    cursor is the index of the first line that begins with one of the four
    markers, and the number of lines when no line does.  So the remaining
    lines are the lines from the first diff line on: there are none, or
    the first of them starts a diff. *)
Theorem cursor_is_first_diff (lines : list string) :
  cursor lines = first_diff lines
  ∧ (parse_header lines).2 = drop (first_diff lines) lines
  ∧ match (parse_header lines).2 with
    | [] => Forall (fun ln => Re.diff_start ln = false) lines
    | ln :: _ => Re.diff_start ln = true
    end.
Proof.
  destruct (parse_header_loop_ends lines) as (st & Hst & Hi).
  assert (first_diff lines = i st) as Hfirst.
  { apply (while_loop_first_diff (S (length lines)) lines init); simpl;
      [exact Hst | lia | intros; lia]. }
  unfold cursor, parse_header. rewrite Hst. simpl. rewrite <-Hfirst.
  split; [done|]. split; [done|].
  clear. induction lines as [|l lines IH]; simpl; [done|].
  destruct (Re.diff_start l) eqn:Hl; simpl; [done|].
  destruct (drop (first_diff lines) lines); [by constructor | done].
Qed.

(** X3.  A file whose first line starts a diff has no header: whatever the
    marker and whatever follows, [parse_header] returns the empty mapping
    and all the lines, and [validate_lines] returns the six violations for
    the missing fields, the one on the value of [Upstream] and the one on
    the length of the description. *)
Theorem diff_first_no_header (d : string) (rest : list string) :
  Re.diff_start d = true →
  parse_header (d :: rest) = (∅, d :: rest)
  ∧ validate_lines (d :: rest) =
      (Msg.missing <$> REQUIRED_KEYS) ++ [Msg.upstream None; Msg.description].
Proof.
  intros Hd.
  assert (parse_header (d :: rest) = (∅, d :: rest)) as Hparse.
  { unfold parse_header, parse_header_loop. simpl.
    by rewrite (body_diff _ _ _ Hd). }
  split; [done|]. unfold validate_lines. by rewrite Hparse.
Qed.

Lemma diff_first_no_header_witness :
  parse_header ["@@ -1,2 +1,3 @@"; "JIRA: ABC-123"]
    = (∅, ["@@ -1,2 +1,3 @@"; "JIRA: ABC-123"])
  ∧ validate_lines ["@@ -1,2 +1,3 @@"; "JIRA: ABC-123"] =
      (Msg.missing <$> REQUIRED_KEYS) ++ [Msg.upstream None; Msg.description].
Proof.
  apply (diff_first_no_header "@@ -1,2 +1,3 @@" ["JIRA: ABC-123"]).
  reflexivity.
Defined.

(** ** What the mapping holds *)

Section Mapping.

Implicit Types (lines : list string) (st : state) (s : string).

(** A property that the start of the loop has and that every run of the
    body keeps holds where the loop ends. *)
Lemma while_loop_invariant (P : state → Prop) fuel lines st st' :
  (∀ st0 raw st1,
     P st0 → lines !! i st0 = Some raw →
     body lines st0 raw = Continue st1 ∨ body lines st0 raw = Break st1 →
     P st1) →
  P st →
  while_loop fuel lines st = Some st' →
  P st'.
Proof.
  intros Hbody. revert st. induction fuel as [|fuel IH]; intros st; [done|].
  simpl. destruct (lines !! i st) as [raw|] eqn:Hraw; [|by intros ? [= <-]].
  destruct (body lines st raw) as [st1|st1] eqn:Hst1.
  - intros HP [= <-]. apply (Hbody st raw); auto.
  - intros HP. apply IH, (Hbody st raw); auto.
Qed.

Lemma rstrip_by_idemp p s :
  Str.rstrip_by p (Str.rstrip_by p s) = Str.rstrip_by p s.
Proof.
  induction s as [|c s IH]; [done|]. simpl.
  destruct (Str.is_empty (Str.rstrip_by p s) && p c) eqn:Hcut; [done|].
  simpl. by rewrite IH, Hcut.
Qed.

Lemma lstrip_head s :
  match Str.lstrip s with
  | String c _ => Char.is_space c = false
  | EmptyString => True
  end.
Proof.
  induction s as [|c s IH]; [done|]. simpl.
  destruct (Char.is_space c) eqn:Hc; [done|]. by simpl.
Qed.

Lemma rstrip_by_cons p c s :
  p c = false → Str.rstrip_by p (String c s) = String c (Str.rstrip_by p s).
Proof. intros Hc. simpl. by rewrite Hc, andb_false_r. Qed.

(** [strip()] of a trimmed text changes nothing. *)
Lemma strip_idemp s : Str.strip (Str.strip s) = Str.strip s.
Proof.
  unfold Str.strip, Str.rstrip. pose proof (lstrip_head s) as Hhead.
  destruct (Str.lstrip s) as [|c t]; [done|].
  rewrite (rstrip_by_cons _ c t Hhead).
  assert (Str.lstrip (String c (Str.rstrip_by Char.is_space t))
          = String c (Str.rstrip_by Char.is_space t)) as ->
    by (simpl; by rewrite Hhead).
  rewrite <-(rstrip_by_cons _ c t Hhead). apply rstrip_by_idemp.
Qed.

Lemma all_lstrip q s : Str.all q s = true → Str.all q (Str.lstrip s) = true.
Proof.
  induction s as [|c s IH]; [done|]. simpl.
  intros [Hc Hs]%andb_true_iff.
  destruct (Char.is_space c); [by apply IH|]. simpl. by rewrite Hc, Hs.
Qed.

Lemma all_rstrip_by q p s :
  Str.all q s = true → Str.all q (Str.rstrip_by p s) = true.
Proof.
  induction s as [|c s IH]; [done|]. simpl.
  intros [Hc Hs]%andb_true_iff.
  destruct (Str.is_empty (Str.rstrip_by p s) && p c); [done|]. simpl.
  by rewrite Hc, IH.
Qed.

Lemma all_strip q s : Str.all q s = true → Str.all q (Str.strip s) = true.
Proof. intros Hs. by apply all_rstrip_by, all_lstrip. Qed.

(** The name that the header pattern gives is made of letters: [strip()]
    leaves it as it is. *)
Lemma header_key_strip line key value :
  Re.header line = Some (key, value) →
  Str.strip key = key ∧ key ≠ "" ∧ Str.all Char.is_letter key = true.
Proof.
  intros (ws & (Hne & Hkey & _) & _)%header_sound.
  split; [by apply strip_letters | done].
Qed.

End Mapping.

Section Provenance.

Implicit Types (lines : list string) (st : state).

Lemma from_header_line_mono lines bound bound' key v :
  bound ≤ bound' →
  from_header_line lines bound key v → from_header_line lines bound' key v.
Proof.
  intros Hle (k & raw & value & Hk & H). exists k, raw, value.
  split; [lia | done].
Qed.

Lemma body_from_header_line lines st raw st' :
  (∀ key v, fields st !! key = Some v →
            from_header_line lines (i st) key v) →
  lines !! i st = Some raw →
  body lines st raw = Continue st' ∨ body lines st raw = Break st' →
  ∀ key v, fields st' !! key = Some v →
           from_header_line lines (i st') key v.
Proof.
  intros HP Hraw Hbody.
  assert (i st ≤ i st') as Hi.
  { destruct Hbody as [Hbody|Hbody].
    - pose proof (body_continue_i _ _ _ _ Hraw Hbody). lia.
    - pose proof (body_break_i _ _ _ _ Hraw Hbody). lia. }
  assert (i st < i st' ∨ fields st' = fields st) as Hmoved.
  { destruct Hbody as [Hbody|Hbody].
    - pose proof (body_continue_i _ _ _ _ Hraw Hbody). left. lia.
    - right. revert Hbody. unfold body.
      destruct (Str.is_empty (Str.strip (Str.rstrip_nl raw))).
      + destruct (lines !! S (i st)) as [next|]; [|done].
        destruct (Re.diff_start next); [|done]. by intros [= <-].
      + destruct (Re.header (Str.rstrip_nl raw)) as [[key value]|].
        * destruct (String.eqb (Str.strip key) "Description"); [|done].
          by destruct (collect _ _ _).
        * destruct (Re.diff_start (Str.rstrip_nl raw)); [|done].
          by intros [= <-]. }
  assert (∀ key v, fields st !! key = Some v →
                   from_header_line lines (i st') key v) as Hold.
  { intros key v Hv. eapply from_header_line_mono; [exact Hi | by apply HP]. }
  destruct Hmoved as [Hlt|Heq]; [|by rewrite Heq].
  revert Hbody. unfold body.
  destruct (Str.is_empty (Str.strip (Str.rstrip_nl raw))).
  { destruct (lines !! S (i st)) as [next|];
      [destruct (Re.diff_start next)|];
      intros [[= <-]|[= <-]]; done. }
  destruct (Re.header (Str.rstrip_nl raw)) as [[key0 value0]|] eqn:Hre;
    last first.
  { destruct (Re.diff_start (Str.rstrip_nl raw));
      intros [[= <-]|[= <-]]; done. }
  destruct (header_key_strip _ _ _ Hre) as (Hstrip & _).
  rewrite Hstrip.
  destruct (String.eqb_spec key0 "Description") as [->|Hne].
  - destruct (collect _ _ _) as [desc' j] eqn:Hc.
    intros [[= <-]|[=]] key v. simpl in *.
    destruct (decide (key = "Description")) as [->|Hkey].
    + intros _. exists (i st), raw, value0. by repeat split.
    + rewrite lookup_insert_ne by done. apply Hold.
  - intros [[= <-]|[=]] key v. simpl in *.
    destruct (decide (key = key0)) as [->|Hkey].
    + rewrite lookup_insert_eq. intros [= <-].
      exists (i st), raw, value0. by repeat split.
    + rewrite lookup_insert_ne by done. apply Hold.
Qed.

(** The values of the mapping are trimmed, and those of the fields other
    than [Description] hold no line feed. *)
Lemma body_trimmed lines st raw st' :
  (∀ key v, fields st !! key = Some v →
     Str.strip v = v
     ∧ (key ≠ "Description" →
        Str.all (fun c => negb (Ascii.eqb c Char.NL)) v = true)) →
  body lines st raw = Continue st' ∨ body lines st raw = Break st' →
  ∀ key v, fields st' !! key = Some v →
    Str.strip v = v
    ∧ (key ≠ "Description" →
       Str.all (fun c => negb (Ascii.eqb c Char.NL)) v = true).
Proof.
  intros HP. unfold body.
  destruct (Str.is_empty (Str.strip (Str.rstrip_nl raw))).
  { destruct (lines !! S (i st)) as [next|];
      [destruct (Re.diff_start next)|];
      intros [[= <-]|[= <-]]; done. }
  destruct (Re.header (Str.rstrip_nl raw)) as [[key0 value0]|] eqn:Hre;
    last first.
  { destruct (Re.diff_start (Str.rstrip_nl raw));
      intros [[= <-]|[= <-]]; done. }
  destruct (header_key_strip _ _ _ Hre) as (Hstrip & _).
  apply header_sound in Hre as (ws & (_ & _ & _ & Hnl & _) & _).
  rewrite Hstrip.
  destruct (String.eqb_spec key0 "Description") as [->|Hne].
  - destruct (collect _ _ _) as [desc' j].
    intros [[= <-]|[=]] key v. simpl.
    destruct (decide (key = "Description")) as [->|Hkey].
    + rewrite lookup_insert_eq. intros [= <-]. split; [|done].
      apply strip_idemp.
    + rewrite lookup_insert_ne by done. apply HP.
  - intros [[= <-]|[=]] key v. simpl.
    destruct (decide (key = key0)) as [->|Hkey].
    + rewrite lookup_insert_eq. intros [= <-].
      split; [apply strip_idemp | intros _; by apply all_strip].
    + rewrite lookup_insert_ne by done. apply HP.
Qed.

Lemma parse_header_trimmed lines key v :
  (parse_header lines).1 !! key = Some v →
  Str.strip v = v
  ∧ (key ≠ "Description" →
     Str.all (fun c => negb (Ascii.eqb c Char.NL)) v = true).
Proof.
  destruct (parse_header_loop_ends lines) as (st & Hst & _).
  unfold parse_header. rewrite Hst. simpl. revert key v.
  apply (while_loop_invariant
           (fun st => ∀ key v, fields st !! key = Some v →
              Str.strip v = v
              ∧ (key ≠ "Description" →
                 Str.all (fun c => negb (Ascii.eqb c Char.NL)) v = true))
           (S (length lines)) lines init st); [| |exact Hst].
  - intros st0 raw st1 HP _. by apply body_trimmed.
  - intros key v. simpl. by rewrite lookup_empty.
Qed.

End Provenance.

(** X4.  [parse_header] makes up no field.  Every name in the mapping is
    the name of a header line that stands before the cursor: a line that is
    not blank, on which the header pattern matches with that name, a name
    of one or more letters.  For a field other than [Description] the value
    is the trimmed value of such a line. *)
Theorem parsed_field_has_header_line (lines : list string) (key v : string) :
  (parse_header lines).1 !! key = Some v →
  ∃ k raw value,
    k < cursor lines ∧ lines !! k = Some raw
    ∧ Re.header (Str.rstrip_nl raw) = Some (key, value)
    ∧ key ≠ "" ∧ Str.all Char.is_letter key = true
    ∧ (key ≠ "Description" → v = Str.strip value).
Proof.
  destruct (parse_header_loop_ends lines) as (st & Hst & _).
  unfold parse_header, cursor. rewrite Hst. simpl. intros Hv.
  assert (from_header_line lines (i st) key v)
    as (k & raw & value & Hk & Hraw & Hre & Hvalue).
  { revert key v Hv.
    apply (while_loop_invariant
             (fun st => ∀ key v, fields st !! key = Some v →
                                 from_header_line lines (i st) key v)
             (S (length lines)) lines init st); [| |exact Hst].
    - intros st0 raw st1 HP Hraw Hbody.
      by apply (body_from_header_line lines st0 raw).
    - intros key v. simpl. by rewrite lookup_empty. }
  exists k, raw, value.
  destruct (header_key_strip _ _ _ Hre) as (_ & Hne & Hletters).
  by repeat split.
Qed.

Lemma parsed_field_has_header_line_witness :
  ∃ k raw value,
    k < cursor (readlines Sample.all_valid)
    ∧ readlines Sample.all_valid !! k = Some raw
    ∧ Re.header (Str.rstrip_nl raw) = Some ("Title", value)
    ∧ "Title" ≠ "" ∧ Str.all Char.is_letter "Title" = true
    ∧ ("Title" ≠ "Description" → "Fix the build" = Str.strip value).
Proof.
  apply (parsed_field_has_header_line (readlines Sample.all_valid)
           "Title" "Fix the build").
  reflexivity.
Defined.

(** X5.  Every value that [parse_header] stores is trimmed: [strip()]
    leaves it as it is, so a value is empty or starts and ends with a
    character that is not white space.  The value of a field other than
    [Description] holds no line feed. *)
Theorem parsed_values_are_trimmed (lines : list string) (key v : string) :
  (parse_header lines).1 !! key = Some v →
  Str.strip v = v
  ∧ (v = "" ∨ Str.is_empty (Str.strip v) = false)
  ∧ (key ≠ "Description" →
     Str.all (fun c => negb (Ascii.eqb c Char.NL)) v = true).
Proof.
  intros [Hstrip Hnl]%parse_header_trimmed.
  split; [done|]. split; [|done].
  rewrite Hstrip. destruct v; [by left | by right].
Qed.

Lemma parsed_values_are_trimmed_witness :
  Str.strip "A. Developer" = "A. Developer"
  ∧ ("A. Developer" = "" ∨ Str.is_empty (Str.strip "A. Developer") = false)
  ∧ ("Author" ≠ "Description" →
     Str.all (fun c => negb (Ascii.eqb c Char.NL)) "A. Developer" = true).
Proof.
  apply (parsed_values_are_trimmed (readlines Sample.all_valid) "Author").
  reflexivity.
Defined.

(** ** The messages of [validate_patch_file] *)

Section Messages.

Implicit Types (flds : gmap string string) (lines : list string)
  (m key : string).

Lemma append_inj_l s a b : s +:+ a = s +:+ b → a = b.
Proof.
  induction s as [|c s IH]; [done|]. rewrite !append_cons.
  intros [= H]. by apply IH.
Qed.

Lemma elem_of_check_required_iff flds m :
  m ∈ check_required flds ↔
  ∃ key, key ∈ REQUIRED_KEYS ∧ m = Msg.missing key
         ∧ missing_or_empty flds key = true.
Proof.
  unfold check_required. rewrite list_elem_of_fmap. split.
  - intros (key & -> & [Hmissing Hkey]%list_elem_of_filter). by exists key.
  - intros (key & Hkey & -> & Hmissing). exists key.
    split; [done|]. by apply list_elem_of_filter.
Qed.

Lemma missing_in_check_required flds key :
  Msg.missing key ∈ check_required flds →
  missing_or_empty flds key = true.
Proof.
  intros (key' & _ & Heq & Hmissing)%elem_of_check_required_iff.
  unfold Msg.missing in Heq. by apply append_inj_l in Heq as ->.
Qed.

Lemma elem_of_check_jira_iff flds m :
  m ∈ check_jira flds ↔
  m = Msg.jira (default "" (flds !! "JIRA"))
  ∧ default "" (flds !! "JIRA") ≠ ""
  ∧ Re.jira_search (default "" (flds !! "JIRA")) = false.
Proof.
  unfold check_jira. destruct (default "" (flds !! "JIRA")) as [|c s] eqn:Hj.
  { simpl. rewrite elem_of_nil. split; [done | by intros (_ & ? & _)]. }
  simpl Str.is_empty. cbv iota.
  destruct (Re.jira_search (String c s)).
  - rewrite elem_of_nil. split; [done | by intros (_ & _ & ?)].
  - rewrite list_elem_of_singleton. split; [done | by intros [? _]].
Qed.

Lemma check_required_nil_inv flds key :
  check_required flds = [] → key ∈ REQUIRED_KEYS →
  missing_or_empty flds key = false.
Proof.
  unfold check_required. intros Hnil%fmap_nil_inv Hkey.
  destruct (missing_or_empty flds key) eqn:Hmissing; [|done].
  by destruct (filter_nil_not_elem_of _ _ key Hnil Hmissing).
Qed.

Lemma not_missing flds key :
  missing_or_empty flds key = false →
  ∃ v, flds !! key = Some v ∧ Str.is_empty (Str.strip v) = false.
Proof.
  unfold missing_or_empty. destruct (flds !! key) as [v|]; [|done].
  intros Hv. by exists v.
Qed.

(** A field of the parsed header that is missing or empty is not there, or
    there with the empty value. *)
Lemma parsed_missing lines key :
  missing_or_empty (parse_header lines).1 key = true →
  (parse_header lines).1 !! key = None
  ∨ (parse_header lines).1 !! key = Some "".
Proof.
  unfold missing_or_empty.
  destruct ((parse_header lines).1 !! key) as [v|] eqn:Hv; [|by left].
  apply parse_header_trimmed in Hv as [-> _].
  intros ->%is_empty_true. by right.
Qed.

Lemma validate_lines_cons l lines :
  validate_lines (l :: lines) =
    check_required (parse_header (l :: lines)).1
      ++ check_jira (parse_header (l :: lines)).1
      ++ check_upstream (parse_header (l :: lines)).1
      ++ check_description (parse_header (l :: lines)).1.
Proof. done. Qed.

End Messages.

(** X6.  When the parsed header has a [JIRA], the violation on the ticket
    key is among the returned ones exactly when the value is not empty and
    holds no ticket key, that is nowhere a letter, one or more letters or
    digits, a hyphen and a digit; every returned message on the ticket key
    quotes the value as the header has it. *)
Theorem jira_key_violation (lines : list string) (jira : string) :
  (parse_header lines).1 !! "JIRA" = Some jira →
  (Msg.jira jira ∈ validate_lines lines ↔ jira ≠ "" ∧ ¬ ticket_shape jira)
  ∧ (∀ m, m ∈ validate_lines lines →
          Str.startswith "JIRA field" m = true →
          m = "JIRA field does not contain a valid ticket key: '"
                +:+ jira +:+ "'").
Proof.
  intros Hj.
  assert (∀ m, m ∈ validate_lines lines →
               Str.startswith "JIRA field" m = true →
               m = Msg.jira jira ∧ jira ≠ "" ∧ Re.jira_search jira = false)
    as Hshape.
  { intros m Hm. apply (elem_of_validate_lines _ _ _ _ Hj) in Hm.
    destruct Hm as [[k ->]%elem_of_check_required
                   |[Hm%elem_of_check_jira_iff
                   |[[-> _]%elem_of_check_upstream
                   |[-> _]%elem_of_check_description]]]; try done.
    by rewrite Hj in Hm. }
  split.
  - unfold ticket_shape. rewrite <-jira_search_spec. split.
    + intros Hm. apply Hshape in Hm as (_ & Hne & Hsearch); [|done].
      split; [done|]. by rewrite Hsearch.
    + intros [Hne Hsearch]. apply (elem_of_validate_lines _ _ _ _ Hj).
      right. left. apply elem_of_check_jira_iff. rewrite Hj. simpl.
      split; [done|]. split; [done|]. by destruct (Re.jira_search jira).
  - intros m Hm Hpre. by apply Hshape in Hm as [-> _].
Qed.

Lemma jira_key_violation_witness :
  (Msg.jira "nottickets" ∈ validate_lines (readlines Sample.three_bad)
   ↔ "nottickets" ≠ "" ∧ ¬ ticket_shape "nottickets")
  ∧ (∀ m, m ∈ validate_lines (readlines Sample.three_bad) →
          Str.startswith "JIRA field" m = true →
          m = "JIRA field does not contain a valid ticket key: '"
                +:+ "nottickets" +:+ "'").
Proof.
  apply (jira_key_violation (readlines Sample.three_bad) "nottickets").
  reflexivity.
Defined.

(** X7.  [validate_lines] returns at most eight violations for a file, and
    never both reports [JIRA] as missing and its value as holding no ticket
    key: when the ticket key is checked the field is there with a value
    that is not blank. *)
Theorem at_most_eight_violations (lines : list string) :
  length (validate_lines lines) ≤ 8
  ∧ (∀ v, Msg.jira v ∈ validate_lines lines →
          Msg.missing "JIRA" ∉ validate_lines lines).
Proof.
  destruct lines as [|l lines].
  { split; [simpl; lia|]. simpl. by intros v [=]%list_elem_of_singleton. }
  rewrite validate_lines_cons. set (flds := (parse_header (l :: lines)).1).
  assert (length (check_required flds) ≤ 6) as Hreq.
  { unfold check_required. rewrite length_fmap.
    etrans; [apply length_filter | done]. }
  assert (length (check_upstream flds) ≤ 1) as Hup.
  { unfold check_upstream. destruct (_ || _); simpl; lia. }
  assert (length (check_description flds) ≤ 1) as Hdesc.
  { unfold check_description. destruct (_ <? _); simpl; lia. }
  assert (check_jira flds = []
          ∨ (length (check_jira flds) = 1
             ∧ missing_or_empty flds "JIRA" = false)) as Hjira.
  { unfold check_jira.
    destruct (flds !! "JIRA") as [jira|] eqn:Hj; [|by left]. simpl.
    destruct (Str.is_empty jira) eqn:Hempty; [by left|].
    destruct (Re.jira_search jira); [by left|]. right. split; [done|].
    unfold missing_or_empty. rewrite Hj.
    apply parse_header_trimmed in Hj as [-> _]. done. }
  split.
  - rewrite !length_app. destruct Hjira as [->|[Hlen Hnot]]; [simpl; lia|].
    enough (length (check_required flds) ≤ 5) by lia.
    unfold check_required, REQUIRED_KEYS.
    rewrite length_fmap, filter_cons.
    destruct (decide _) as [Hyes|_]; [congruence|].
    etrans; [apply length_filter | done].
  - intros v Hv Hmissing.
    assert (check_jira flds ≠ []) as Hne.
    { rewrite !elem_of_app in Hv.
      destruct Hv as [[k Hk]%elem_of_check_required
                     |[Hv
                     |[[Hu _]%elem_of_check_upstream
                     |[Hd _]%elem_of_check_description]]]; try done.
      intros Hnil. rewrite Hnil in Hv. by apply elem_of_nil in Hv. }
    destruct Hjira as [|[_ Hnot]]; [done|].
    rewrite !elem_of_app in Hmissing.
    destruct Hmissing as [Hm%missing_in_check_required
                         |[[v' Hv']%elem_of_check_jira
                         |[[Hu _]%elem_of_check_upstream
                         |[Hd _]%elem_of_check_description]]]; try done.
    congruence.
Qed.

(** X8.  A missing [Upstream] is reported twice, and so is a missing
    [Description]: whenever [validate_lines] reports [Upstream] as missing
    or empty it also returns the violation on its value, quoting [None] or
    the empty value, and whenever it reports [Description] as missing or
    empty it also returns the violation on its length. *)
Theorem missing_upstream_and_description_twice (lines : list string) :
  (Msg.missing "Upstream" ∈ validate_lines lines →
   ((parse_header lines).1 !! "Upstream" = None
    ∧ Msg.upstream None ∈ validate_lines lines)
   ∨ ((parse_header lines).1 !! "Upstream" = Some ""
      ∧ Msg.upstream (Some "") ∈ validate_lines lines))
  ∧ (Msg.missing "Description" ∈ validate_lines lines →
     Msg.description ∈ validate_lines lines).
Proof.
  destruct lines as [|l lines].
  { simpl. split; by intros [=]%list_elem_of_singleton. }
  rewrite validate_lines_cons. set (flds := (parse_header (l :: lines)).1).
  assert (∀ key, Msg.missing key ∈
                   check_required flds ++ check_jira flds
                     ++ check_upstream flds ++ check_description flds →
                 flds !! key = None ∨ flds !! key = Some "") as Hmissing.
  { intros key. rewrite !elem_of_app.
    intros [Hm%missing_in_check_required
           |[[v' Hv']%elem_of_check_jira
           |[[Hu _]%elem_of_check_upstream
           |[Hd _]%elem_of_check_description]]]; try done.
    by apply parsed_missing. }
  split.
  - intros Hm. rewrite !elem_of_app.
    destruct (Hmissing _ Hm) as [Hnone|Hempty]; [left | right];
      (split; [done|]); do 2 right; left;
      apply elem_of_check_upstream.
    + by rewrite Hnone.
    + by rewrite Hempty.
  - intros Hm. rewrite !elem_of_app. do 3 right.
    apply elem_of_check_description.
    destruct (Hmissing _ Hm) as [->| ->]; simpl; (split; [done | lia]).
Qed.

(** X9.  [validate_lines] returns no violation exactly when the parsed
    header is valid: the six required fields are there; [JIRA] holds a
    ticket key; [Upstream] in lower case is [yes] or [no]; [Title],
    [Author] and [Date] are not empty; [Description] has at least 20
    characters.  The stored values are trimmed, so nothing has to be
    trimmed again to read the conditions. *)
Theorem no_violation_iff_valid (lines : list string) :
  validate_lines lines = [] ↔
  ∃ jira upstream title author date desc,
    (parse_header lines).1 !! "JIRA" = Some jira
    ∧ ticket_shape jira
    ∧ (parse_header lines).1 !! "Upstream" = Some upstream
    ∧ (Str.lower upstream = "yes" ∨ Str.lower upstream = "no")
    ∧ (parse_header lines).1 !! "Title" = Some title ∧ title ≠ ""
    ∧ (parse_header lines).1 !! "Author" = Some author ∧ author ≠ ""
    ∧ (parse_header lines).1 !! "Date" = Some date ∧ date ≠ ""
    ∧ (parse_header lines).1 !! "Description" = Some desc
    ∧ 20 ≤ Str.len desc.
Proof.
  assert (∀ key v, (parse_header lines).1 !! key = Some v →
                   (Str.is_empty (Str.strip v) = false ↔ v ≠ "")) as Hblank.
  { intros key v [-> _]%parse_header_trimmed. by destruct v. }
  unfold ticket_shape. setoid_rewrite <-jira_search_spec. split.
  - destruct lines as [|l lines]; [done|]. rewrite validate_lines_cons.
    intros (Hreq & (Hjira & (Hup & Hdesc)%app_eq_nil)%app_eq_nil)%app_eq_nil.
    assert (∀ key, key ∈ REQUIRED_KEYS →
              ∃ v, (parse_header (l :: lines)).1 !! key = Some v ∧ v ≠ "")
      as Hthere.
    { intros key Hkey.
      destruct (not_missing _ key (check_required_nil_inv _ key Hreq Hkey))
        as (v & Hv & Hne).
      exists v. split; [done|]. by apply (Hblank key). }
    unfold REQUIRED_KEYS in Hthere.
    destruct (Hthere "JIRA") as (jira & Hj & Hj');
      [repeat first [apply list_elem_of_here | apply list_elem_of_further]|].
    destruct (Hthere "Upstream") as (upstream & Hu & _);
      [repeat first [apply list_elem_of_here | apply list_elem_of_further]|].
    destruct (Hthere "Title") as (title & Ht & Ht');
      [repeat first [apply list_elem_of_here | apply list_elem_of_further]|].
    destruct (Hthere "Author") as (author & Ha & Ha');
      [repeat first [apply list_elem_of_here | apply list_elem_of_further]|].
    destruct (Hthere "Date") as (date & Hdt & Hdt');
      [repeat first [apply list_elem_of_here | apply list_elem_of_further]|].
    destruct (Hthere "Description") as (desc & Hd & _);
      [repeat first [apply list_elem_of_here | apply list_elem_of_further]|].
    exists jira, upstream, title, author, date, desc.
    repeat split; try done.
    + unfold check_jira in Hjira. rewrite Hj in Hjira.
      change (default "" (Some jira)) with jira in Hjira.
      destruct (Str.is_empty jira) eqn:Hempty;
        [by apply is_empty_true in Hempty|].
      by destruct (Re.jira_search jira).
    + unfold check_upstream in Hup. rewrite Hu in Hup. simpl in Hup.
      destruct (String.eqb_spec (Str.lower upstream) "yes"); [by left|].
      destruct (String.eqb_spec (Str.lower upstream) "no"); [by right|done].
    + unfold check_description in Hdesc. rewrite Hd in Hdesc. simpl in Hdesc.
      apply parse_header_trimmed in Hd as [Hd _]. rewrite Hd in Hdesc.
      by destruct (Nat.ltb_spec (Str.len desc) 20).
  - intros (jira & upstream & title & author & date & desc & Hj & Hj' & Hu
            & Hu' & Ht & Ht' & Ha & Ha' & Hdt & Hdt' & Hd & Hd').
    rewrite (validate_lines_checks _ _ _ Hj).
    assert (Str.strip desc = desc) as Hdesc
      by (by apply parse_header_trimmed in Hd as [? _]).
    rewrite check_required_nil; last first.
    { intros key Hkey. unfold REQUIRED_KEYS in Hkey.
      repeat (apply elem_of_cons in Hkey as [->|Hkey]);
        [..|by apply elem_of_nil in Hkey];
        eapply present_not_missing; eauto.
      - by apply jira_search_not_blank.
      - apply (Hblank _ _ Hu). intros ->. by destruct Hu'.
      - by apply (Hblank _ _ Ht).
      - by apply (Hblank _ _ Ha).
      - by apply (Hblank _ _ Hdt).
      - rewrite Hdesc. apply len_not_blank. lia. }
    unfold check_jira, check_upstream, check_description.
    rewrite Hj, Hu, Hd. simpl. rewrite Hj', Hdesc.
    destruct (Nat.ltb_spec (Str.len desc) 20); [lia|].
    destruct (Str.is_empty jira); simpl; by destruct Hu' as [->| ->].
Qed.

Section EmptyFile.

Lemma universal_newlines_empty s : universal_newlines s = "" → s = "".
Proof.
  destruct s as [|c s]; [done|]. simpl.
  destruct (Ascii.eqb c Char.CR); [|done].
  destruct s as [|d s]; [done|]. by destruct (Ascii.eqb d Char.NL).
Qed.

Lemma split_lines_empty s : split_lines s = [] → s = "".
Proof.
  destruct s as [|c s]; [done|]. simpl.
  destruct (Ascii.eqb c Char.NL); [done|]. by destruct (split_lines s).
Qed.

Lemma readlines_empty text : readlines text = [] ↔ text = "".
Proof.
  split; [|by intros ->].
  by intros ->%split_lines_empty%universal_newlines_empty.
Qed.

End EmptyFile.

(** X10.  [Empty file] is reported for the file of zero characters and for
    no other: a file that opens with some text in it, be it one line end
    or white space alone, goes through the four checks and does not get
    that message. *)
Theorem empty_file_iff_no_text (w : world) (path text : string) :
  file_text w path = Some text →
  (validate_patch_file w path = Returned [Msg.empty_file] ↔ text = "")
  ∧ (text ≠ "" →
     ∃ errs, validate_patch_file w path = Returned errs
             ∧ Msg.empty_file ∉ errs).
Proof.
  intros Htext. unfold validate_patch_file. rewrite Htext.
  destruct (readlines text) as [|l lines] eqn:Hlines.
  { apply readlines_empty in Hlines as ->. split; [done|]. by intros []. }
  assert (text ≠ "") as Hne by (intros ->; discriminate Hlines).
  rewrite validate_lines_cons. set (flds := (parse_header (l :: lines)).1).
  assert (Msg.empty_file ∉
            check_required flds ++ check_jira flds ++ check_upstream flds
              ++ check_description flds) as Hnot.
  { rewrite !elem_of_app.
    intros [[k Hk]%elem_of_check_required
           |[[v Hv]%elem_of_check_jira
           |[[Hu _]%elem_of_check_upstream
           |[Hd _]%elem_of_check_description]]]; done. }
  split.
  - split; [|done]. intros [= Heq]. rewrite Heq in Hnot.
    destruct Hnot. apply list_elem_of_here.
  - intros _. eexists. by split.
Qed.

Lemma empty_file_iff_no_text_witness :
  (validate_patch_file Sample.w "good.patch" = Returned [Msg.empty_file]
   ↔ Sample.all_valid = "")
  ∧ (Sample.all_valid ≠ "" →
     ∃ errs, validate_patch_file Sample.w "good.patch" = Returned errs
             ∧ Msg.empty_file ∉ errs).
Proof.
  apply (empty_file_iff_no_text Sample.w "good.patch" Sample.all_valid).
  reflexivity.
Defined.

(** X11.  A required field is reported as missing exactly when the parsed
    header does not have it or has it with the empty value; no other name
    is ever reported as missing. *)
Theorem missing_field_violation (lines : list string) (key : string) :
  lines ≠ [] →
  Msg.missing key ∈ validate_lines lines ↔
  key ∈ REQUIRED_KEYS
  ∧ ((parse_header lines).1 !! key = None
     ∨ (parse_header lines).1 !! key = Some "").
Proof.
  destruct lines as [|l lines]; [done|]. intros _.
  rewrite validate_lines_cons. set (flds := (parse_header (l :: lines)).1).
  split.
  - rewrite !elem_of_app.
    intros [Hm
           |[[v' Hv']%elem_of_check_jira
           |[[Hu _]%elem_of_check_upstream
           |[Hd _]%elem_of_check_description]]]; try done.
    split; [|by apply parsed_missing, missing_in_check_required].
    apply elem_of_check_required_iff in Hm as (key' & Hkey' & Heq & _).
    unfold Msg.missing in Heq. by apply append_inj_l in Heq as ->.
  - intros [Hkey Hmissing]. rewrite elem_of_app. left.
    apply elem_of_check_required_iff. exists key.
    split; [done|]. split; [done|]. unfold missing_or_empty.
    by destruct Hmissing as [->| ->].
Qed.

Lemma missing_field_violation_witness :
  Msg.missing "Title" ∈ validate_lines (readlines Sample.upstream_YES) ↔
  "Title" ∈ REQUIRED_KEYS
  ∧ ((parse_header (readlines Sample.upstream_YES)).1 !! "Title" = None
     ∨ (parse_header (readlines Sample.upstream_YES)).1 !! "Title" = Some "").
Proof.
  apply (missing_field_violation (readlines Sample.upstream_YES) "Title").
  discriminate.
Defined.

(** ** Header lines and what [parse_header] reads from them *)

Section Reading.

Implicit Types (lines pre : list string) (st : state)
  (pairs : list (string * string)).

Lemma while_loop_unfold fuel lines st :
  while_loop (S fuel) lines st =
    match lines !! i st with
    | None => Some st
    | Some raw =>
        match body lines st raw with
        | Break st' => Some st'
        | Continue st' => while_loop fuel lines st'
        end
    end.
Proof. done. Qed.

(** The loop over the header lines of plain fields: it stores each value
    under its name, a later one in the place of an earlier one, and stops at
    the diff line that follows. *)
Lemma while_loop_field_lines pairs pre f desc d rest fuel :
  Forall plain_field pairs → Re.diff_start d = true →
  length pairs < fuel →
  while_loop fuel (pre ++ field_lines pairs ++ d :: rest)
    (State f desc (length pre)) =
    Some (State (foldl (fun m kv => <[kv.1 := kv.2]> m) f pairs) desc
            (length pre + length pairs)).
Proof.
  intros Hpairs Hd. revert pre f fuel.
  induction Hpairs as [|[k v] pairs (Hne & Hk & Hdesc & Hv) _ IH];
    intros pre f fuel Hfuel; (destruct fuel as [|fuel]; [simpl in Hfuel; lia|]);
    rewrite while_loop_unfold; cbn [i].
  - simpl. rewrite list_lookup_middle by done.
    rewrite (body_diff _ _ _ Hd). by rewrite Nat.add_0_r.
  - cbn [field_lines fmap list_fmap fst snd app].
    rewrite list_lookup_middle by done.
    rewrite body_field by done. cbn [fields desc_lines i].
    specialize (IH (pre ++ [Sample.header_line k v]) (<[k := v]> f) fuel).
    rewrite length_app, <-app_assoc in IH. simpl in IH.
    replace (length pre + 1) with (S (length pre)) in IH by lia.
    unfold field_lines in IH. rewrite IH by (simpl in Hfuel; lia).
    simpl. do 2 f_equal. lia.
Qed.

Lemma foldl_insert_list_to_map pairs (f : gmap string string) :
  foldl (fun m kv => <[kv.1 := kv.2]> m) f pairs =
    foldr (fun kv m => <[kv.1 := kv.2]> m) f (reverse pairs).
Proof.
  revert f. induction pairs as [|kv pairs IH]; intros f; [done|].
  simpl. by rewrite IH, reverse_cons, foldr_snoc.
Qed.

(** The inner loop takes the lines that continue the description up to a
    diff line. *)
Lemma collect_continues cont d rest desc j :
  Forall (fun ln => continues ln = true) cont → Re.diff_start d = true →
  collect (cont ++ d :: rest) desc j =
    (desc ++ (Str.rstrip_nl <$> cont), j + length cont).
Proof.
  intros Hcont Hd. revert desc j.
  induction Hcont as [|ln cont Hln _ IH]; intros desc j; simpl.
  - by rewrite Hd, app_nil_r, Nat.add_0_r.
  - unfold continues in Hln. apply negb_true_iff in Hln. rewrite Hln.
    rewrite IH, <-app_assoc. simpl. f_equal. lia.
Qed.

End Reading.

(** X12.  Writing fields as header lines and parsing them gives the fields
    back.  For any list of fields with names of letters other than
    [Description] and plain values, [parse_header] on their header lines
    followed by a diff line returns the mapping of these fields and, as
    remaining lines, the diff line and what follows it.  When a name occurs
    on several lines the last one wins. *)
Theorem field_lines_round_trip
    (pairs : list (string * string)) (d : string) (rest : list string) :
  Forall plain_field pairs → Re.diff_start d = true →
  parse_header (field_lines pairs ++ d :: rest) =
    (list_to_map (reverse pairs), d :: rest)
  ∧ (∀ before key v after,
       pairs = before ++ (key, v) :: after → key ∉ after.*1 →
       (parse_header (field_lines pairs ++ d :: rest)).1 !! key = Some v).
Proof.
  intros Hpairs Hd.
  assert (parse_header (field_lines pairs ++ d :: rest) =
            (list_to_map (reverse pairs), d :: rest)) as Hparse.
  { unfold parse_header, parse_header_loop.
    pose proof (while_loop_field_lines pairs [] ∅ [] d rest
                  (S (length (field_lines pairs ++ d :: rest))) Hpairs Hd)
      as Hloop.
    cbn [app length Nat.add] in Hloop. unfold init. rewrite Hloop; last first.
    { rewrite length_app. unfold field_lines. rewrite length_fmap. lia. }
    cbn [fields i]. rewrite foldl_insert_list_to_map. f_equal.
    rewrite drop_app_length'; [done|].
    unfold field_lines. by rewrite length_fmap. }
  split; [done|]. rewrite Hparse. cbn [fst].
  intros before key v after -> Hkey.
  rewrite reverse_app, reverse_cons, <-app_assoc.
  assert (key ∉ (reverse after).*1) as Hkey'
    by (by rewrite fmap_reverse, elem_of_reverse).
  revert Hkey'. generalize (reverse after). intros l Hl.
  induction l as [|[k' v'] l IH]; simpl.
  - by rewrite lookup_insert_eq.
  - simpl in Hl. apply not_elem_of_cons in Hl as [Hne Hl].
    rewrite lookup_insert_ne by done. by apply IH.
Qed.

Lemma field_lines_round_trip_witness :
  parse_header
    (field_lines [("Upstream", "yes"); ("Title", "One"); ("Upstream", "no")]
       ++ "--- a/x" :: ["+++ b/x"]) =
    (list_to_map
       (reverse [("Upstream", "yes"); ("Title", "One"); ("Upstream", "no")]),
     "--- a/x" :: ["+++ b/x"])
  ∧ (∀ before key v after,
       [("Upstream", "yes"); ("Title", "One"); ("Upstream", "no")]
         = before ++ (key, v) :: after →
       key ∉ after.*1 →
       (parse_header
          (field_lines
             [("Upstream", "yes"); ("Title", "One"); ("Upstream", "no")]
             ++ "--- a/x" :: ["+++ b/x"])).1 !! key = Some v).
Proof.
  apply (field_lines_round_trip
           [("Upstream", "yes"); ("Title", "One"); ("Upstream", "no")]
           "--- a/x" ["+++ b/x"]).
  - repeat (apply Forall_cons; split;
            [repeat split; (reflexivity || discriminate)|]).
    apply Forall_nil_2.
  - reflexivity.
Defined.

(** X13.  The lines after a [Description] line belong to the description up
    to the next blank line or diff line, header lines among them: when
    lines that are neither blank nor diff lines follow a [Description] line
    and a diff line comes after them, the mapping has [Description] alone,
    with the value of the line (when it has one) and these lines, each
    trimmed, joined by line feeds; no field is read from them. *)
Theorem description_takes_following_lines
    (raw value d : string) (cont rest : list string) :
  description_line raw = Some value →
  Forall (fun ln => continues ln = true) cont →
  Re.diff_start d = true →
  parse_header (raw :: cont ++ d :: rest) =
    ({["Description" :=
         Str.strip
           (Str.join Str.NL
              (Str.strip <$>
                 (if Str.is_empty value then [] else [value])
                   ++ (Str.rstrip_nl <$> cont)))]},
     d :: rest).
Proof.
  intros Hraw Hcont Hd. unfold parse_header, parse_header_loop.
  cbn [length]. rewrite while_loop_unfold. unfold init. cbn [i lookup list_lookup].
  rewrite (body_description _ _ _ _ Hraw). cbn [desc_lines fields i drop].
  rewrite (collect_continues cont d rest _ _ Hcont Hd). cbn [fst snd].
  rewrite length_app. cbn [length]. 
  replace (length cont + S (length rest)) with (S (length cont + length rest))
    by lia.
  rewrite while_loop_unfold. cbn [i].
  change (raw :: cont ++ d :: rest) with ([raw] ++ cont ++ d :: rest).
  rewrite app_assoc.
  rewrite list_lookup_middle by (rewrite length_app; simpl; lia).
  rewrite (body_diff _ _ _ Hd). cbn [fields i].
  rewrite drop_app_length' by (rewrite length_app; simpl; lia).
  rewrite insert_empty. unfold description_value.
  by destruct (Str.is_empty value).
Qed.

Lemma description_takes_following_lines_witness :
  parse_header
    (("Description:" +:+ Str.NL)
       :: ["  Explanation of why this patch is downstream-only and whether it has been proposed upstream." +:+ Str.NL;
           "Title: not a field here" +:+ Str.NL]
       ++ "diff --git a/x b/x" :: []) =
    ({["Description" :=
         Str.strip
           (Str.join Str.NL
              (Str.strip <$>
                 (if Str.is_empty "" then [] else [""])
                   ++ (Str.rstrip_nl <$>
                         ["  Explanation of why this patch is downstream-only and whether it has been proposed upstream." +:+ Str.NL;
                          "Title: not a field here" +:+ Str.NL])))]},
     "diff --git a/x b/x" :: []).
Proof.
  apply (description_takes_following_lines
           ("Description:" +:+ Str.NL) "" "diff --git a/x b/x").
  - reflexivity.
  - repeat (apply Forall_cons; split; [reflexivity|]). apply Forall_nil_2.
  - reflexivity.
Defined.

(** ** Lines before the header *)

Section Leading.

Implicit Types (lines pre junk : list string) (st : state).

Lemma collect_shift n from_j desc j :
  collect from_j desc (n + j) =
    ((collect from_j desc j).1, n + (collect from_j desc j).2).
Proof.
  revert desc j. induction from_j as [|ln rest IH]; intros desc j; [done|].
  simpl. destruct (Re.diff_start ln || Str.is_empty (Str.strip ln)); [done|].
  by rewrite <-IH, Nat.add_succ_r.
Qed.

(** The body sees the lines from [i] on only: with lines put before, it
    does the same, [i] moved by their number. *)
Lemma body_shift pre lines st raw :
  body (pre ++ lines) (shift (length pre) st) raw =
    shift_flow (length pre) (body lines st raw).
Proof.
  assert (∀ k, (pre ++ lines) !! (length pre + k) = lines !! k) as Hlook.
  { intros k. rewrite lookup_app_r by lia. f_equal. lia. }
  unfold body, shift. cbn [fields desc_lines i].
  destruct (Str.is_empty (Str.strip (Str.rstrip_nl raw))).
  - rewrite <-!Nat.add_succ_r, Hlook.
    destruct (lines !! S (i st)) as [next|]; [|done].
    by destruct (Re.diff_start next).
  - destruct (Re.header (Str.rstrip_nl raw)) as [[key value]|].
    + rewrite <-!Nat.add_succ_r.
      destruct (String.eqb (Str.strip key) "Description"); [|done].
      rewrite drop_app_add', collect_shift by done.
      by destruct (collect _ _ _).
    + rewrite <-!Nat.add_succ_r.
      by destruct (Re.diff_start (Str.rstrip_nl raw)).
Qed.

Lemma while_loop_shift fuel pre lines st :
  while_loop fuel (pre ++ lines) (shift (length pre) st) =
    shift (length pre) <$> while_loop fuel lines st.
Proof.
  revert st. induction fuel as [|fuel IH]; intros st; [done|].
  rewrite !while_loop_unfold.
  replace ((pre ++ lines) !! i (shift (length pre) st)) with (lines !! i st);
    last first.
  { unfold shift. cbn [i]. rewrite lookup_app_r by lia. f_equal. lia. }
  destruct (lines !! i st) as [raw|]; [|done].
  rewrite body_shift. destruct (body lines st raw) as [st'|st']; [done|].
  apply IH.
Qed.

(** A line that is passed over is no diff line. *)
Lemma passed_over_no_diff raw :
  passed_over raw = true → Re.diff_start raw = false.
Proof.
  unfold passed_over. rewrite <-(diff_start_rstrip_nl raw).
  destruct (Re.diff_start (Str.rstrip_nl raw)) eqn:Hd; [|done].
  destruct (diff_start_line _ Hd) as [-> ->]. done.
Qed.

(** On a line that is passed over the body moves to the next line and
    changes nothing else; it ends in [break] when that line starts a
    diff. *)
Lemma body_passed_over lines st raw :
  passed_over raw = true →
  body lines st raw = Continue (State (fields st) (desc_lines st) (S (i st)))
  ∨ (body lines st raw = Break (State (fields st) (desc_lines st) (S (i st)))
     ∧ ∃ next, lines !! S (i st) = Some next ∧ Re.diff_start next = true).
Proof.
  unfold passed_over, body.
  destruct (Str.is_empty (Str.strip (Str.rstrip_nl raw))).
  - intros _. destruct (lines !! S (i st)) as [next|]; [|by left].
    destruct (Re.diff_start next) eqn:Hd; [right | by left].
    split; [done|]. by exists next.
  - simpl. destruct (Re.header (Str.rstrip_nl raw)); [done|].
    destruct (Re.diff_start (Str.rstrip_nl raw)); [done|]. by left.
Qed.

(** The loop over lines that are passed over comes to the end that it
    comes to from the line after them. *)
Lemma while_loop_passed_over junk pre lines f desc fuel st' :
  Forall (fun raw => passed_over raw = true) junk →
  while_loop fuel (pre ++ junk ++ lines)
    (State f desc (length pre + length junk)) = Some st' →
  while_loop (length junk + fuel) (pre ++ junk ++ lines)
    (State f desc (length pre)) = Some st'.
Proof.
  intros Hjunk. revert pre.
  induction Hjunk as [|raw junk Hraw Hjunk IH]; intros pre.
  - simpl. by rewrite Nat.add_0_r.
  - intros Hloop. cbn [length Nat.add].
    change ((raw :: junk) ++ lines) with (raw :: junk ++ lines) in *.
    rewrite while_loop_unfold. cbn [i].
    rewrite list_lookup_middle by done.
    specialize (IH (pre ++ [raw])).
    rewrite length_app, <-app_assoc in IH. cbn [length app] in IH.
    replace (length pre + 1 + length junk)
      with (length pre + S (length junk)) in IH by lia.
    replace (length pre + 1) with (S (length pre)) in IH by lia.
    destruct (body_passed_over (pre ++ raw :: junk ++ lines)
                (State f desc (length pre)) raw Hraw)
      as [->|[-> (next & Hnext & Hd)]].
    + by apply IH.
    + cbn [i] in Hnext. cbn [fields desc_lines].
      destruct junk as [|raw' junk].
      * (* the diff line is the first of [lines] *)
        destruct fuel as [|fuel]; [done|].
        rewrite while_loop_unfold in Hloop. cbn [i length] in Hloop.
        replace (length pre + 1) with (S (length pre)) in Hloop by lia.
        rewrite Hnext, (body_diff _ _ _ Hd) in Hloop. done.
      * (* a line that is passed over starts no diff *)
        apply Forall_cons in Hjunk as [Hraw' _].
        change (pre ++ raw :: (raw' :: junk) ++ lines)
          with (pre ++ [raw] ++ raw' :: junk ++ lines) in Hnext.
        rewrite app_assoc in Hnext.
        rewrite list_lookup_middle in Hnext
          by (rewrite length_app; simpl; lia).
        injection Hnext as <-.
        by rewrite (passed_over_no_diff _ Hraw') in Hd.
Qed.

End Leading.

(** X14.  Lines before the header that are blank or are neither header
    lines nor diff lines (comments, for one) are passed over: with any
    number of such lines put before a file, [parse_header] returns the same
    mapping and the same remaining lines, and the cursor is moved by their
    number. *)
Theorem leading_lines_are_passed_over (junk lines : list string) :
  Forall (fun raw => passed_over raw = true) junk →
  (parse_header (junk ++ lines)).1 = (parse_header lines).1
  ∧ (parse_header (junk ++ lines)).2 = (parse_header lines).2
  ∧ cursor (junk ++ lines) = length junk + cursor lines.
Proof.
  intros Hjunk.
  destruct (parse_header_loop_ends lines) as (st & Hst & _).
  destruct (parse_header_loop_ends (junk ++ lines)) as (st' & Hst' & _).
  assert (st' = shift (length junk) st) as ->.
  { unfold parse_header_loop in Hst, Hst'.
    pose proof (while_loop_shift (S (length lines)) junk lines init) as Hshift.
    rewrite Hst in Hshift.
    assert (while_loop (S (length lines)) ([] ++ junk ++ lines)
              (State ∅ [] (length (@nil string) + length junk))
            = Some (shift (length junk) st)) as Hshift'.
    { cbn [app length Nat.add].
      replace (State ∅ [] (length junk)) with (shift (length junk) init)
        by (unfold shift, init; cbn [fields desc_lines i]; f_equal; lia).
      exact Hshift. }
    pose proof (while_loop_passed_over junk [] lines ∅ [] _ _ Hjunk Hshift')
      as Hfrom_start.
    cbn [app length] in Hfrom_start.
    eapply while_loop_more in Hfrom_start; [|apply Nat.le_max_l].
    eapply while_loop_more in Hst'; [|apply Nat.le_max_r].
    unfold init in Hst'. rewrite Hfrom_start in Hst'. by injection Hst'. }
  unfold parse_header, cursor. rewrite Hst, Hst'. unfold shift. simpl.
  split; [done|]. split; [|done]. by rewrite drop_app_add'.
Qed.

Lemma leading_lines_are_passed_over_witness :
  (parse_header (["# downstream patch"; Str.NL] ++ readlines Sample.all_valid)).1
    = (parse_header (readlines Sample.all_valid)).1
  ∧ (parse_header (["# downstream patch"; Str.NL] ++ readlines Sample.all_valid)).2
    = (parse_header (readlines Sample.all_valid)).2
  ∧ cursor (["# downstream patch"; Str.NL] ++ readlines Sample.all_valid)
    = length ["# downstream patch"; Str.NL]
      + cursor (readlines Sample.all_valid).
Proof.
  apply (leading_lines_are_passed_over ["# downstream patch"; Str.NL]
           (readlines Sample.all_valid)).
  repeat (apply Forall_cons; split; [reflexivity|]). apply Forall_nil_2.
Defined.

(** ** The report of a run *)

Section Report.

Variable w : world.

(** The loop over files that all open: it prints, for each file in turn,
    the progress line and the verdict on that file's own violations, and
    returns whether it was entered with [True] or met a violation. *)
Lemma for_files_report files overall_failed :
  Forall (fun f => is_Some (file_text w f)) files →
  for_files w files overall_failed =
    (files ≫= (fun f => [Validating f; verdict f (violations w f)]),
     Returned
       (overall_failed
        || negb (forallb (fun f => bool_decide (violations w f = [])) files))).
Proof.
  intros Hfiles. revert overall_failed.
  induction Hfiles as [|f files [text Hf] _ IH]; intros overall_failed.
  - simpl. by rewrite orb_false_r.
  - cbn [for_files]. unfold validate_patch_file, violations at 1 2.
    unfold violations in IH. cbn [mbind list_bind forallb].
    unfold violations at 1 2. rewrite Hf.
    destruct (validate_lines (readlines text)) as [|e errs].
    + rewrite IH. rewrite bool_decide_eq_true_2 by done. done.
    + rewrite IH. rewrite bool_decide_eq_false_2 by done.
      simpl. by rewrite orb_true_r.
Qed.

End Report.

(** X15.  When paths are given and all of them open, [main] reports every
    file once and in the order given: for each file the progress line and
    then the verdict on that file's own violations, [OK] when it has none
    and its violations otherwise; nothing of a file depends on the other
    files.  It returns 1 when some file has a violation and 0 when none
    has. *)
Theorem main_reports_each_file (w : world) (argv : list string) :
  1 < length argv →
  Forall (fun f => is_Some (file_text w f)) (drop 1 argv) →
  main w argv =
    (drop 1 argv ≫= (fun f => [Validating f; verdict f (violations w f)]),
     Returned
       (if forallb (fun f => bool_decide (violations w f = [])) (drop 1 argv)
        then 0 else 1)).
Proof.
  intros Hargv Hfiles. unfold main.
  destruct (Nat.ltb_spec 1 (length argv)) as [_|]; [|lia].
  destruct (drop 1 argv) as [|f files] eqn:Hdrop.
  { apply (f_equal length) in Hdrop. rewrite length_drop in Hdrop.
    simpl in Hdrop. lia. }
  unfold main_files. rewrite (for_files_report w _ _ Hfiles).
  by destruct (forallb _ _).
Qed.

Lemma main_reports_each_file_witness :
  main Sample.w [Sample.prog; "bad.patch"; "good.patch"] =
    (drop 1 [Sample.prog; "bad.patch"; "good.patch"]
       ≫= (fun f => [Validating f; verdict f (violations Sample.w f)]),
     Returned
       (if forallb (fun f => bool_decide (violations Sample.w f = []))
             (drop 1 [Sample.prog; "bad.patch"; "good.patch"])
        then 0 else 1)).
Proof.
  apply (main_reports_each_file Sample.w
           [Sample.prog; "bad.patch"; "good.patch"]).
  - simpl. lia.
  - repeat (apply Forall_cons; split; [by eexists|]). apply Forall_nil_2.
Defined.

(** X16.  The exit status of a run over given paths does not depend on
    their order: two runs over the same paths in any two orders end with
    the same status, also when a path that cannot be opened cuts one of
    them short at another place. *)
Theorem exit_status_order_independent
    (w : world) (prog : string) (files files' : list string) :
  files ≡ₚ files' →
  exit_status (main w (prog :: files)).2
  = exit_status (main w (prog :: files')).2.
Proof.
  intros Hperm.
  assert (∀ l, exit_status (main w (prog :: l)).2
               = exit_status (main_files w l).2 ∨ l = []) as Hmain.
  { intros l. destruct l as [|f l]; [by right|]. left. unfold main.
    by destruct (Nat.ltb_spec 1 (length (prog :: f :: l)));
      [|simpl in *; lia]. }
  destruct files as [|f files].
  { by apply Permutation_nil_l in Hperm as ->. }
  destruct files' as [|f' files'].
  { by apply Permutation_nil_r in Hperm. }
  destruct (Hmain (f :: files)) as [->|]; [|done].
  destruct (Hmain (f' :: files')) as [->|]; [|done].
  destruct (main_files_status w (f :: files)) as [Hzero Hbit].
  destruct (main_files_status w (f' :: files')) as [Hzero' Hbit'].
  assert (exit_status (main_files w (f :: files)).2 = 0
          ↔ exit_status (main_files w (f' :: files')).2 = 0) as Hiff.
  { rewrite Hzero, Hzero'. split; intros [_ Hall]; (split; [done|]).
    - by rewrite <-Hperm.
    - by rewrite Hperm. }
  destruct Hbit as [H0|H1], Hbit' as [H0'|H1']; try congruence.
  - apply Hiff in H0. congruence.
  - apply Hiff in H0'. congruence.
Qed.

Lemma exit_status_order_independent_witness :
  exit_status (main Sample.w (Sample.prog :: ["good.patch"; "nope.patch"])).2
  = exit_status (main Sample.w (Sample.prog :: ["nope.patch"; "good.patch"])).2.
Proof.
  apply (exit_status_order_independent Sample.w Sample.prog
           ["good.patch"; "nope.patch"] ["nope.patch"; "good.patch"]).
  apply perm_swap.
Defined.

(** X17.  Runs compose: the exit status of a run over two lists of paths,
    neither of them empty, one after the other is 0 exactly when the run
    over each list alone ends with 0; it is the larger of the two. *)
Theorem exit_status_of_two_runs
    (w : world) (prog : string) (files files' : list string) :
  files ≠ [] → files' ≠ [] →
  exit_status (main w (prog :: files ++ files')).2
  = exit_status (main w (prog :: files)).2
    `max` exit_status (main w (prog :: files')).2.
Proof.
  intros Hne Hne'.
  assert (∀ l, l ≠ [] →
               exit_status (main w (prog :: l)).2
               = exit_status (main_files w l).2) as Hmain.
  { intros [|f l] Hl; [done|]. unfold main.
    by destruct (Nat.ltb_spec 1 (length (prog :: f :: l)));
      [|simpl in *; lia]. }
  rewrite !Hmain by (done || by destruct files).
  destruct (main_files_status w files) as [Hzero Hbit].
  destruct (main_files_status w files') as [Hzero' Hbit'].
  destruct (main_files_status w (files ++ files')) as [Hzero'' Hbit''].
  rewrite Forall_app in Hzero''.
  assert (files ++ files' ≠ []) as Hne'' by (by destruct files).
  destruct Hbit as [H0|H1], Hbit' as [H0'|H1'], Hbit'' as [H0''|H1''];
    rewrite ?H0, ?H1, ?H0', ?H1', ?H0'', ?H1''; try done.
  - apply Hzero in H0 as [_ Hall]. apply Hzero' in H0' as [_ Hall'].
    assert (exit_status (main_files w (files ++ files')).2 = 0) as Hboth
      by (by apply Hzero''). congruence.
  - apply Hzero'' in H0'' as [_ [_ Hall]].
    assert (exit_status (main_files w files').2 = 0) as Hsnd
      by (by apply Hzero'). congruence.
  - apply Hzero'' in H0'' as [_ [Hall _]].
    assert (exit_status (main_files w files).2 = 0) as Hfst
      by (by apply Hzero). congruence.
  - apply Hzero'' in H0'' as [_ [Hall _]].
    assert (exit_status (main_files w files).2 = 0) as Hfst
      by (by apply Hzero). congruence.
Qed.

Lemma exit_status_of_two_runs_witness :
  exit_status (main Sample.w (Sample.prog :: ["good.patch"] ++ ["bad.patch"])).2
  = exit_status (main Sample.w (Sample.prog :: ["good.patch"])).2
    `max` exit_status (main Sample.w (Sample.prog :: ["bad.patch"])).2.
Proof.
  apply (exit_status_of_two_runs Sample.w Sample.prog
           ["good.patch"] ["bad.patch"]); discriminate.
Defined.

(** ** The diff body *)

Section DiffBody.

Implicit Types (header body : list string) (d : string).

Lemma first_diff_le header d body :
  Re.diff_start d = true → first_diff (header ++ d :: body) ≤ length header.
Proof.
  intros Hd. induction header as [|l header IH]; simpl; [by rewrite Hd|].
  destruct (Re.diff_start l); lia.
Qed.

(** The state in which the loop ends is the same whatever follows a diff
    line. *)
Lemma parse_header_loop_diff_body header d body body' st :
  Re.diff_start d = true →
  parse_header_loop (header ++ d :: body) = Some st →
  parse_header_loop (header ++ d :: body') = Some st
  ∧ i st ≤ length header.
Proof.
  intros Hd Hst.
  assert (first_diff (header ++ d :: body) = i st) as Hfirst.
  { apply (while_loop_first_diff (S (length (header ++ d :: body)))
             (header ++ d :: body) init); simpl; [exact Hst | lia |].
    intros; lia. }
  pose proof (first_diff_le header d body Hd) as Hle. rewrite Hfirst in Hle.
  split; [|done].
  assert (∀ rest, take (S (i st)) (header ++ d :: rest)
                  = take (S (i st)) (header ++ [d])) as Htake.
  { intros rest. rewrite (cons_middle d header rest), app_assoc.
    apply take_app_le. rewrite length_app. simpl. lia. }
  rewrite <-(take_drop (S (i st)) (header ++ d :: body')).
  rewrite Htake, <-(Htake body).
  apply parse_header_loop_ext; [done|].
  rewrite length_app. simpl. lia.
Qed.

End DiffBody.

(** X18.  What stands after the first diff line has no part in the result:
    two files that are the same up to a diff line have the same parsed
    fields, the same cursor and the same violations, whatever their diff
    bodies hold, header lines among them. *)
Theorem verdict_ignores_diff_body
    (header : list string) (d : string) (body body' : list string) :
  Re.diff_start d = true →
  (parse_header (header ++ d :: body)).1
  = (parse_header (header ++ d :: body')).1
  ∧ cursor (header ++ d :: body) = cursor (header ++ d :: body')
  ∧ validate_lines (header ++ d :: body)
    = validate_lines (header ++ d :: body').
Proof.
  intros Hd.
  destruct (parse_header_loop_ends (header ++ d :: body)) as (st & Hst & _).
  destruct (parse_header_loop_diff_body header d body body' st Hd Hst)
    as [Hst' _].
  assert ((parse_header (header ++ d :: body)).1
          = (parse_header (header ++ d :: body')).1) as Hfields.
  { unfold parse_header. by rewrite Hst, Hst'. }
  split; [done|]. split; [unfold cursor; by rewrite Hst, Hst'|].
  destruct header as [|l header]; simpl in *.
  - unfold validate_lines. by rewrite Hfields.
  - unfold validate_lines. by rewrite Hfields.
Qed.

Lemma verdict_ignores_diff_body_witness :
  (parse_header (["Upstream: no"] ++ "@@ -1 +1 @@" :: ["Title: x"])).1
  = (parse_header (["Upstream: no"] ++ "@@ -1 +1 @@" :: [])).1
  ∧ cursor (["Upstream: no"] ++ "@@ -1 +1 @@" :: ["Title: x"])
    = cursor (["Upstream: no"] ++ "@@ -1 +1 @@" :: [])
  ∧ validate_lines (["Upstream: no"] ++ "@@ -1 +1 @@" :: ["Title: x"])
    = validate_lines (["Upstream: no"] ++ "@@ -1 +1 @@" :: []).
Proof.
  apply (verdict_ignores_diff_body ["Upstream: no"] "@@ -1 +1 @@"
           ["Title: x"] []).
  reflexivity.
Defined.

(** X19.  The lines that are read as header lines of a name are the lines
    of this form and no others: the name, made of one or more letters, a
    colon right after it, any white space, and a value without line feed up
    to the end of the line.  So a name with a digit, a hyphen or a space
    before the colon gives no field. *)
Theorem header_line_iff_shape (line key : string) :
  (∃ value, Re.header line = Some (key, value))
  ↔ ∃ ws value, header_shape line key ws value.
Proof.
  split.
  - intros (value & (ws & Hshape & _)%header_sound). by exists ws, value.
  - intros (ws & value & Hshape). by apply (header_complete line key ws value).
Qed.

(** ** The valid header, line by line (C4) *)

Section ValidHeader.

Implicit Types (lines pre tail : list string) (st : state)
  (pairs : list (string * string)).

(** The loop over the header lines of plain fields, whatever comes after
    them: it stores each value under its name and goes on with the line
    after them. *)
Lemma while_loop_over_field_lines pairs pre f desc tail fuel :
  Forall plain_field pairs →
  while_loop (length pairs + fuel) (pre ++ field_lines pairs ++ tail)
    (State f desc (length pre)) =
  while_loop fuel (pre ++ field_lines pairs ++ tail)
    (State (foldl (fun m kv => <[kv.1 := kv.2]> m) f pairs) desc
       (length pre + length pairs)).
Proof.
  intros Hpairs. revert pre f.
  induction Hpairs as [|[k v] pairs (Hne & Hk & Hdesc & Hv) _ IH];
    intros pre f.
  - simpl. by rewrite Nat.add_0_r.
  - cbn [length Nat.add]. rewrite while_loop_unfold. cbn [i].
    cbn [field_lines fmap list_fmap fst snd app].
    rewrite list_lookup_middle by done.
    rewrite body_field by done. cbn [fields desc_lines i].
    specialize (IH (pre ++ [Sample.header_line k v]) (<[k := v]> f)).
    rewrite length_app, <-app_assoc in IH. simpl in IH.
    replace (length pre + 1) with (S (length pre)) in IH by lia.
    unfold field_lines in IH. rewrite IH.
    simpl. do 2 f_equal. lia.
Qed.

(** [parse_header] on the header lines of plain fields, then the
    [Description] line, then a diff line: the mapping has these fields and
    the description, and the diff line is the first of the remaining
    lines. *)
Lemma parse_header_description_last pairs desc d rest :
  Forall plain_field pairs → Sample.plain desc → desc ≠ "" →
  Re.diff_start d = true →
  parse_header
    (field_lines pairs ++ Sample.header_line "Description" desc :: d :: rest) =
    (<["Description" := desc]> (list_to_map (reverse pairs)), d :: rest).
Proof.
  intros Hpairs Hdesc Hne Hd.
  set (lines := field_lines pairs
                  ++ Sample.header_line "Description" desc :: d :: rest).
  assert (length (field_lines pairs) = length pairs) as Hlen
    by (unfold field_lines; by rewrite length_fmap).
  assert (lines !! length pairs
          = Some (Sample.header_line "Description" desc)) as Hat_desc
    by (by apply list_lookup_middle).
  assert (lines !! S (length pairs) = Some d) as Hat_diff.
  { unfold lines.
    rewrite (cons_middle (Sample.header_line "Description" desc)), app_assoc.
    apply list_lookup_middle. rewrite length_app, Hlen. simpl. lia. }
  unfold parse_header, parse_header_loop.
  replace (S (length lines)) with (length pairs + S (S (S (length rest))));
    last first.
  { unfold lines. rewrite length_app, Hlen. simpl. lia. }
  pose proof (while_loop_over_field_lines pairs [] ∅ []
                (Sample.header_line "Description" desc :: d :: rest)
                (S (S (S (length rest)))) Hpairs) as Hfields.
  cbn [app length Nat.add] in Hfields. fold lines in Hfields.
  unfold init. rewrite Hfields.
  rewrite while_loop_unfold. cbn [i]. rewrite Hat_desc.
  rewrite (body_description_then_diff lines _ desc d) by done.
  rewrite while_loop_unfold. cbn [i desc_lines fields]. rewrite Hat_diff.
  rewrite (body_diff _ _ _ Hd). cbn [fields i].
  rewrite foldl_insert_list_to_map. f_equal.
  - unfold description_value. simpl. by rewrite !(proj1 Hdesc).
  - unfold lines.
    rewrite (cons_middle (Sample.header_line "Description" desc)), app_assoc.
    apply drop_app_length'. rewrite length_app, Hlen. simpl. lia.
Qed.

End ValidHeader.

(** C4, as the code has it.  A file has no violation when its header gives
    [JIRA], [Upstream], [Title], [Author] and [Date] as header lines, in any
    order, and then the [Description] line, with valid values (a ticket key
    in [JIRA], [no] for [Upstream], [Title], [Author] and [Date] not empty,
    a [Description] of at least 20 characters; the values on one line and
    without white space around them), and a diff line, as
    [diff --git a/x b/x] is, comes next, whatever follows it. *)
Theorem valid_header_lines_no_violation
    (pairs : list (string * string)) (jira title author date desc d : string)
    (rest : list string) :
  pairs ≡ₚ [("JIRA", jira); ("Upstream", "no"); ("Title", title);
            ("Author", author); ("Date", date)] →
  Sample.plain jira → Sample.plain title → Sample.plain author →
  Sample.plain date → Sample.plain desc →
  Re.jira_search jira = true →
  title ≠ "" → author ≠ "" → date ≠ "" → 20 ≤ Str.len desc →
  Re.diff_start d = true →
  validate_lines
    (field_lines pairs ++ Sample.header_line "Description" desc :: d :: rest)
  = [].
Proof.
  intros Hperm Hj Ht Ha Hdt Hdesc Hjira Ht' Ha' Hdt' Hlen Hd.
  assert (desc ≠ "") as Hne by (intros ->; simpl in Hlen; lia).
  assert (Forall plain_field pairs) as Hpairs.
  { assert (Sample.plain "no") as Hno by (by split).
    rewrite Hperm.
    repeat (apply Forall_cons; split;
            [split; [done|split; [done|split; [done|assumption]]]|]).
    apply Forall_nil_2. }
  pose proof (parse_header_description_last pairs desc d rest
                Hpairs Hdesc Hne Hd) as Hparse.
  assert ((list_to_map (reverse pairs) : gmap string string)
          = list_to_map [("JIRA", jira); ("Upstream", "no"); ("Title", title);
                         ("Author", author); ("Date", date)]) as Hmap.
  { symmetry. apply list_to_map_proper.
    - apply (bool_decide_unpack _). by vm_compute.
    - by rewrite reverse_Permutation. }
  rewrite Hmap in Hparse.
  assert ((parse_header
             (field_lines pairs
                ++ Sample.header_line "Description" desc :: d :: rest)).1
            !! "JIRA" = Some jira) as Hlookup by (by rewrite Hparse).
  rewrite (validate_lines_checks _ _ _ Hlookup), Hparse. cbn [fst].
  apply (valid_fields_checks _ jira title author date desc);
    rewrite ?(proj1 Ht), ?(proj1 Ha), ?(proj1 Hdt), ?(proj1 Hdesc);
    try done.
Qed.

Lemma valid_header_lines_no_violation_witness :
  validate_lines
    (field_lines [("Title", "Fix the build"); ("JIRA", "ABC-123");
                  ("Date", "2024-01-01"); ("Upstream", "no");
                  ("Author", "A. Developer")]
       ++ Sample.header_line "Description" "Carried until upstream takes it."
       :: Sample.diff_line :: [])
  = [].
Proof.
  apply (valid_header_lines_no_violation
           [("Title", "Fix the build"); ("JIRA", "ABC-123");
            ("Date", "2024-01-01"); ("Upstream", "no");
            ("Author", "A. Developer")]
           "ABC-123" "Fix the build" "A. Developer" "2024-01-01"
           "Carried until upstream takes it." Sample.diff_line []).
  - apply (bool_decide_unpack _). vm_compute. reflexivity.
  - split; reflexivity.
  - split; reflexivity.
  - split; reflexivity.
  - split; reflexivity.
  - split; reflexivity.
  - reflexivity.
  - discriminate.
  - discriminate.
  - discriminate.
  - vm_compute. lia.
  - reflexivity.
Defined.

(** C4, as stated, fails: a file whose header gives the six required fields
    with valid values, each on its header line, and then the line
    [diff --git a/x b/x], has violations when the [Description] line comes
    first: the five lines after it continue the description, their fields
    are reported missing, and [Upstream] is reported with the value
    [None]. *)
Lemma valid_fields_description_first_violations :
  readlines Sample.valid_description_first =
    Sample.header_line "Description" "Carried until upstream takes it."
      :: field_lines [("JIRA", "ABC-123"); ("Upstream", "no");
                      ("Title", "Fix the build"); ("Author", "A. Developer");
                      ("Date", "2024-01-01")]
      ++ [Sample.diff_line +:+ Str.NL]
  ∧ Re.jira_search "ABC-123" = true
  ∧ 20 ≤ Str.len (Str.strip "Carried until upstream takes it.")
  ∧ validate_lines (readlines Sample.valid_description_first) =
      [Msg.missing "JIRA"; Msg.missing "Upstream"; Msg.missing "Title";
       Msg.missing "Author"; Msg.missing "Date"; Msg.upstream None]
  ∧ validate_lines (readlines Sample.valid_description_first) ≠ [].
Proof.
  split; [reflexivity|]. split; [reflexivity|].
  split; [vm_compute; lia|].
  assert (validate_lines (readlines Sample.valid_description_first) =
            [Msg.missing "JIRA"; Msg.missing "Upstream"; Msg.missing "Title";
             Msg.missing "Author"; Msg.missing "Date"; Msg.upstream None])
    as Hresult by (by vm_compute).
  split; [exact Hresult|]. by rewrite Hresult.
Qed.
